(** * Zotero.CiteprocRs.Engine: the citeproc-js / citeproc-rs bridge

    A shallow embedding of [chrome/content/zotero/xpcom/citeprocRsBridge.js]
    and the properties of the bridge that its specification states.

    The JavaScript class [Zotero.CiteprocRs.Engine] keeps a handful of fields
    and forwards every request to an engine handle ([this._driver]) and to an
    item provider ([this.sys]).  Both are external: the embedding takes their
    answers from a [Host] record and records every call the bridge issues in a
    trace of [Event]s, in program order.  Methods become computations in a
    state-and-exception monad over the session fields and the trace; an
    exception leaves the effects that happened before it in place, as in
    JavaScript.  [Zotero.debug] logging is not modelled. *)

From Stdlib Require Import Ascii.
From stdpp Require Import gmap strings list pretty.

Set Warnings "-register-all".
Open Scope Z_scope.

(** ** JavaScript values *)

(** Numbers are modelled by the integers and [NaN], which is what item keys
    and note indices are (the model is exact below 2^53, where a JavaScript
    number holds every integer); strings are byte strings; objects are finite
    maps from property names to values. *)
Inductive JsVal : Type :=
| JUndefined
| JNull
| JBool (b : bool)
| JNum (z : Z)
| JNaN
| JStr (s : string)
| JObj (o : gmap string JsVal)
| JArr (l : list JsVal).

(** [o[key]] on an object: a missing property reads as [undefined]. *)
Definition get (key : string) (o : gmap string JsVal) : JsVal :=
  default JUndefined (o !! key).

(** [v.key] on an arbitrary value whose nullishness was already excluded:
    primitives and arrays have no such data property. *)
Definition get_prop (key : string) (v : JsVal) : JsVal :=
  match v with
  | JObj o => get key o
  | _ => JUndefined
  end.

(** ToBoolean. *)
Definition truthy (v : JsVal) : bool :=
  match v with
  | JUndefined | JNull | JNaN => false
  | JBool b => b
  | JNum z => negb (z =? 0)
  | JStr s => negb (String.eqb s "")
  | JObj _ | JArr _ => true
  end.

(** [typeof v == "string"]. *)
Definition is_string (v : JsVal) : bool :=
  match v with
  | JStr _ => true
  | _ => false
  end.

(** [Array.prototype.join] on already converted elements. *)
Fixpoint join (sep : string) (l : list string) : string :=
  match l with
  | [] => ""
  | [s] => s
  | s :: rest => s +:+ sep +:+ join sep rest
  end.

(** ToString, as performed by a template literal [`${v}`]. *)
Fixpoint to_string (v : JsVal) : string :=
  match v with
  | JUndefined => "undefined"
  | JNull => "null"
  | JBool true => "true"
  | JBool false => "false"
  | JNum z => pretty z
  | JNaN => "NaN"
  | JStr s => s
  | JObj _ => "[object Object]"
  | JArr l =>
      join ","
        (map (fun x => match x with
                       | JUndefined | JNull => ""
                       | _ => to_string x
                       end) l)
  end.

(** *** [parseInt] with no radix argument *)

(** Leading white space is skipped (the ASCII white space characters), then
    an optional sign and an optional [0x] prefix are read, then the longest
    run of digits; with no digit the result is [NaN]. *)

Definition is_whitespace (c : ascii) : bool :=
  let n := nat_of_ascii c in
  ((9 <=? n) && (n <=? 13) || (n =? 32))%nat.

Fixpoint skip_whitespace (s : string) : string :=
  match s with
  | String c rest => if is_whitespace c then skip_whitespace rest else s
  | EmptyString => s
  end.

(** The value of [c] as a digit of the given radix (10 or 16), if it is one. *)
Definition digit_value (radix : Z) (c : ascii) : option Z :=
  let n := Z.of_nat (nat_of_ascii c) in
  let d :=
    if ((48 <=? n) && (n <=? 57))%Z then Some (n - 48)
    else if ((97 <=? n) && (n <=? 102))%Z then Some (n - 87)
    else if ((65 <=? n) && (n <=? 70))%Z then Some (n - 55)
    else None in
  match d with
  | Some k => if (k <? radix)%Z then Some k else None
  | None => None
  end.

(** Reads the longest prefix of digits; [acc] is [None] until a digit is seen. *)
Fixpoint parse_digits (radix : Z) (s : string) (acc : option Z) : option Z :=
  match s with
  | String c rest =>
      match digit_value radix c with
      | Some d => parse_digits radix rest (Some (default 0 acc * radix + d))
      | None => acc
      end
  | EmptyString => acc
  end.

(** An optional sign, and the rest of the input. *)
Definition parse_sign (s : string) : Z * string :=
  match s with
  | String "-" rest => (-1, rest)
  | String "+" rest => (1, rest)
  | _ => (1, s)
  end.

(** A [0x] or [0X] prefix selects radix 16. *)
Definition parse_radix (s : string) : Z * string :=
  match s with
  | String "0" (String "x" rest) | String "0" (String "X" rest) => (16, rest)
  | _ => (10, s)
  end.

Definition parseInt (s : string) : JsVal :=
  let signed := parse_sign (skip_whitespace s) in
  let prefixed := parse_radix signed.2 in
  match parse_digits prefixed.1 prefixed.2 None with
  | Some n => JNum (signed.1 * n)
  | None => JNaN
  end.

(** [array.splice(start, 0, x)] for a non-negative [start]: a start beyond the
    end is clamped to the length. *)
Definition splice_insert {A} (start : nat) (x : A) (l : list A) : list A :=
  take start l ++ x :: drop start l.

(** ** The engine handle, the item provider and the trace *)

(** The options object handed to [new Zotero.CiteprocRs.Driver(options)].
    The [fetcher] property is a bound callback and carries no data;
    [localeOverride] is only set when the session overrides the locale. *)
Record DriverOptions : Type := {
  o_style : JsVal;
  o_format : string;
  o_localeOverride : option JsVal;
}.

(** One method call on a handle, with its arguments. *)
Inductive DriverCall : Type :=
| DFree
| DSetOutputFormat (format : string)
| DInsertReference (reference : gmap string JsVal)
| DInsertCluster (cluster : gmap string JsVal)
| DPreviewCluster (cluster : gmap string JsVal) (order : list (gmap string JsVal))
                  (format : JsVal)
| DBuiltCluster (id : JsVal)
| DSetClusterOrder (order : list (gmap string JsVal))
| DBatchedUpdates
| DIncludeUncited (arg : gmap string JsVal)
| DBibliographyMeta
| DMakeBibliography.

(** What the bridge does to the outside world.  Handles are numbered in the
    order of their creation. *)
Inductive Event : Type :=
| EvRetrieveItem (id : JsVal)
| EvRandomString (len : nat)
| EvNew (h : nat) (options : DriverOptions)
| EvCall (h : nat) (c : DriverCall).

(** How a JavaScript call ends. *)
Inductive Completion (A : Type) : Type :=
| Normal (a : A)
| Throw (e : JsVal).
Arguments Normal {A} a.
Arguments Throw {A} e.

(** One entry of [driver.makeBibliography()]. *)
Record BibEntry : Type := {
  entry_id : JsVal;
  entry_value : JsVal;
}.

(** The answers of the external collaborators.  The engine may answer
    according to everything that happened before (the trace so far); the item
    provider answers by item id, and an answer that is not a record counts as
    a failure, since line 136 then raises.  [driver_new] is [Some e] when the
    constructor throws [e]. *)
Record Host : Type := {
  sys_retrieveItem : JsVal → Completion (gmap string JsVal);
  randomString : list Event → nat → string;
  driver_new : list Event → DriverOptions → option JsVal;
  driver_call : list Event → nat → DriverCall → Completion JsVal;
  driver_bibliographyMeta : list Event → nat → Completion (gmap string JsVal);
  driver_makeBibliography : list Event → nat → Completion (list BibEntry);
}.

(** The error raised by the language itself ([undefined.free()] and the like). *)
Definition TypeError : JsVal := JStr "TypeError".

(** ** The session *)

(** The fields of an [Engine] instance; [sys] is the [Host]'s item provider
    and [opt] is the constant [{ sort_citations: true }]. *)
Record Engine : Type := {
  _styleXML : JsVal;
  _overrideLocale : bool;
  locale : JsVal;
  _format : string;
  _driver : option nat;
  styleID : JsVal;
  hasBibliography : JsVal;
  opt_sort_citations : bool;
}.

Definition set_format (format : string) (e : Engine) : Engine :=
  {| _styleXML := _styleXML e; _overrideLocale := _overrideLocale e;
     locale := locale e; _format := format; _driver := _driver e;
     styleID := styleID e; hasBibliography := hasBibliography e;
     opt_sort_citations := opt_sort_citations e |}.

Definition set_driver (h : nat) (e : Engine) : Engine :=
  {| _styleXML := _styleXML e; _overrideLocale := _overrideLocale e;
     locale := locale e; _format := _format e; _driver := Some h;
     styleID := styleID e; hasBibliography := hasBibliography e;
     opt_sort_citations := opt_sort_citations e |}.

(** A citation as the word-processor integration passes it:
    [{ citationID, citationItems, properties }]. *)
Record Citation : Type := {
  citationID : JsVal;
  citationItems : list (gmap string JsVal);
  properties : gmap string JsVal;
}.

Definition set_citationID (id : JsVal) (c : Citation) : Citation :=
  {| citationID := id; citationItems := citationItems c;
     properties := properties c |}.

(** ** The monad of methods *)

Record State : Type := {
  this : Engine;
  trace : list Event;
}.

Definition M (A : Type) : Type := State → Completion A * State.

Definition ret {A} (a : A) : M A := fun s => (Normal a, s).

Definition throw {A} (e : JsVal) : M A := fun s => (Throw e, s).

Definition bind {A B} (m : M A) (f : A → M B) : M B := fun s =>
  match m s with
  | (Normal a, s') => f a s'
  | (Throw e, s') => (Throw e, s')
  end.

(** [try { m } catch (e) { handler e }] *)
Definition try_catch {A} (m : M A) (handler : JsVal → M A) : M A := fun s =>
  match m s with
  | (Normal a, s') => (Normal a, s')
  | (Throw e, s') => handler e s'
  end.

Declare Scope js_scope.
Delimit Scope js_scope with js.
Notation "'let*' x ':=' m 'in' k" := (bind m (fun x => k))
  (at level 10, x pattern, m at level 100, k at level 200) : js_scope.
Open Scope js_scope.

Definition get_this : M Engine := fun s => (Normal (this s), s).

Definition modify_this (f : Engine → Engine) : M unit := fun s =>
  (Normal tt, {| this := f (this s); trace := trace s |}).

Definition emit (ev : Event) (s : State) : State :=
  {| this := this s; trace := trace s ++ [ev] |}.

(** The number of handles created so far, which names the next one. *)
Definition is_new (ev : Event) : bool :=
  match ev with
  | EvNew _ _ => true
  | _ => false
  end.

Definition handles_created (t : list Event) : nat :=
  length (List.filter is_new t).

(** [Object.assign(target, source)]: every property of [source] is written to
    [target], the other properties of [target] stay. *)
Definition Object_assign (target source : gmap string JsVal) : gmap string JsVal :=
  source ∪ target.

(** [a && b] where evaluating [b] has no effect. *)
Definition js_and (a b : JsVal) : JsVal :=
  if truthy a then b else a.

Definition dquote : string := String "034"%char "".
Definition newline : string := String "010"%char "".

(** ** The methods of [Zotero.CiteprocRs.Engine] *)

Definition additionalCSLProperties : list string :=
  ["locator"; "label"; "suppress-author"; "author-only"; "prefix"; "suffix"].

(** The body of the [forEach] callback of [_insertCitationReferences]
    (lines 140-152) for one [key], acting on the cite under construction. *)
Definition add_cite_property (citationItem : gmap string JsVal)
    (cite : gmap string JsVal) (key : string) : gmap string JsVal :=
  if negb (truthy (get key citationItem)) then cite
  else if String.eqb key "suppress-author" then <["mode" := JStr "SuppressAuthor"]> cite
  else if String.eqb key "author-only" then <["mode" := JStr "AuthorOnly"]> cite
  else <[key := get key citationItem]> cite.

(** Lines 139-152: the cite built for one citation item once its reference
    has been resolved and its id turned into a string. *)
Definition build_cite (citationItem citeprocItem : gmap string JsVal)
    : gmap string JsVal :=
  let cite : gmap string JsVal :=
    <["id" := JStr (to_string (get "id" citeprocItem))]>
      (<["locator" := JUndefined]> (<["locators" := JUndefined]> ∅)) in
  fold_left (add_cite_property citationItem) additionalCSLProperties cite.

(** Lines 161-166: the order entry of one [(citationID, noteIndex)] pair. *)
Definition cluster_order_entry (pair : JsVal * JsVal) : gmap string JsVal :=
  let '(citationID, noteIndex) := pair in
  let cluster : gmap string JsVal := <["id" := citationID]> ∅ in
  let noteIndex :=
    if is_string noteIndex then parseInt (to_string noteIndex) else noteIndex in
  if truthy noteIndex then <["note" := noteIndex]> cluster else cluster.

(** [_getClusterOrder(citations)]: the loop pushes one entry per pair. *)
Definition _getClusterOrder (citations : list (JsVal * JsVal))
    : list (gmap string JsVal) :=
  fold_left (fun clusters pair => clusters ++ [cluster_order_entry pair])
    citations [].

Section Methods.

Variable host : Host.

(** *** Calls that leave the bridge *)

(** [this._driver.method(args)]; with no handle the property access on
    [undefined] raises. *)
Definition call_driver (c : DriverCall) : M JsVal := fun s =>
  match _driver (this s) with
  | Some h => (driver_call host (trace s) h c, emit (EvCall h c) s)
  | None => (Throw TypeError, s)
  end.

Definition call_bibliographyMeta : M (gmap string JsVal) := fun s =>
  match _driver (this s) with
  | Some h =>
      (driver_bibliographyMeta host (trace s) h, emit (EvCall h DBibliographyMeta) s)
  | None => (Throw TypeError, s)
  end.

Definition call_makeBibliography : M (list BibEntry) := fun s =>
  match _driver (this s) with
  | Some h =>
      (driver_makeBibliography host (trace s) h, emit (EvCall h DMakeBibliography) s)
  | None => (Throw TypeError, s)
  end.

(** [new Zotero.CiteprocRs.Driver(options)] *)
Definition new_Driver (options : DriverOptions) : M nat := fun s =>
  let h := handles_created (trace s) in
  match driver_new host (trace s) options with
  | Some e => (Throw e, emit (EvNew h options) s)
  | None => (Normal h, emit (EvNew h options) s)
  end.

(** [this.sys.retrieveItem(id)] *)
Definition retrieveItem (id : JsVal) : M (gmap string JsVal) := fun s =>
  (sys_retrieveItem host id, emit (EvRetrieveItem id) s).

(** [Zotero.Utilities.randomString(len)] *)
Definition Utilities_randomString (len : nat) : M string := fun s =>
  (Normal (randomString host (trace s) len), emit (EvRandomString len) s).

(** *** Lines 92-130: lifecycle and output format *)

Definition free (ignoreErrors : bool) : M unit :=
  try_catch
    (let* _ := call_driver DFree in ret tt)
    (fun e => if ignoreErrors then ret tt else throw e).

Definition _resetDriver : M unit :=
  let* self := get_this in
  let* _ :=
    match _driver self with
    | Some _ => let* _ := call_driver DFree in ret tt
    | None => ret tt
    end in
  let options :=
    {| o_style := _styleXML self;
       o_format := _format self;
       o_localeOverride :=
         if _overrideLocale self then Some (locale self) else None |} in
  let* h := new_Driver options in
  modify_this (set_driver h).

Definition setOutputFormat (format : string) : M unit :=
  let format := if String.eqb format "text" then "plain" else format in
  let* self := get_this in
  if negb (String.eqb (_format self) format) then
    let* _ := modify_this (set_format format) in
    let* _ := call_driver (DSetOutputFormat format) in
    ret tt
  else ret tt.

(** *** Lines 132-169: cites and cluster order *)

Fixpoint _insertCitationReferences_loop (items : list (gmap string JsVal))
    (cites : list JsVal) : M (list JsVal) :=
  match items with
  | [] => ret cites
  | citationItem :: rest =>
      let* citeprocItem := retrieveItem (get "id" citationItem) in
      let citeprocItem :=
        <["id" := JStr (to_string (get "id" citeprocItem))]> citeprocItem in
      let* _ := call_driver (DInsertReference citeprocItem) in
      let cite := build_cite citationItem citeprocItem in
      _insertCitationReferences_loop rest (cites ++ [JObj cite])
  end.

Definition _insertCitationReferences (citation : Citation) : M (list JsVal) :=
  _insertCitationReferences_loop (citationItems citation) [].

(** *** Lines 171-216: clusters *)

(** The citation is passed by reference and line 172 may assign its
    [citationID]; the citation as it is after the call is returned next to
    the engine's answer. *)
Definition previewCitationCluster (citation : Citation)
    (citationsPre citationsPost : list (JsVal * JsVal)) (outputFormat : JsVal)
    : M (JsVal * Citation) :=
  let* citation :=
    if negb (truthy (citationID citation)) then
      let* id := Utilities_randomString 10 in
      ret (set_citationID (JStr id) citation)
    else ret citation in
  let* cites := _insertCitationReferences citation in
  let cluster : gmap string JsVal := <["cites" := JArr cites]> ∅ in
  let thisClusterOrder : gmap string JsVal := ∅ in
  let noteIndex := get "noteIndex" (properties citation) in
  let noteIndex :=
    if is_string noteIndex then parseInt (to_string noteIndex) else noteIndex in
  let thisClusterOrder :=
    if truthy noteIndex then <["note" := noteIndex]> thisClusterOrder
    else thisClusterOrder in
  let allClusterOrder := _getClusterOrder (citationsPre ++ citationsPost) in
  let allClusterOrder :=
    splice_insert (length citationsPre) thisClusterOrder allClusterOrder in
  let* result := call_driver (DPreviewCluster cluster allClusterOrder outputFormat) in
  ret (result, citation).

Definition insertCluster (citation : Citation) : M (gmap string JsVal) :=
  let cluster : gmap string JsVal := <["id" := citationID citation]> ∅ in
  let* cites := _insertCitationReferences citation in
  let cluster := <["cites" := JArr cites]> cluster in
  let* _ := call_driver (DInsertCluster cluster) in
  ret cluster.

Definition appendCitationCluster (citation : Citation) : M JsVal :=
  let* _ := insertCluster citation in
  call_driver (DBuiltCluster (citationID citation)).

Definition setClusterOrder (citations : list (JsVal * JsVal)) : M unit :=
  let clusters := _getClusterOrder citations in
  let* _ := call_driver (DSetClusterOrder clusters) in
  ret tt.

Definition getBatchedUpdates : M JsVal :=
  call_driver DBatchedUpdates.

(** *** Lines 218-245: rebuilding and uncited items *)

Fixpoint updateUncitedItems_loop (itemIDs : list JsVal)
    (referenceIDs : list JsVal) : M (list JsVal) :=
  match itemIDs with
  | [] => ret referenceIDs
  | id :: rest =>
      let* citeprocItem := retrieveItem id in
      let citeprocItem :=
        <["id" := JStr (to_string (get "id" citeprocItem))]> citeprocItem in
      let referenceIDs := referenceIDs ++ [get "id" citeprocItem] in
      let* _ := call_driver (DInsertReference citeprocItem) in
      updateUncitedItems_loop rest referenceIDs
  end.

Definition updateUncitedItems (itemIDs : list JsVal) : M unit :=
  let* referenceIDs := updateUncitedItems_loop itemIDs [] in
  let* _ := call_driver (DIncludeUncited (<["Specific" := JArr referenceIDs]> ∅)) in
  ret tt.

Definition updateItems (itemIDs : list JsVal) : M unit :=
  updateUncitedItems itemIDs.

Fixpoint insertCluster_each (citations : list Citation) : M unit :=
  match citations with
  | [] => ret tt
  | citation :: rest =>
      let* _ := insertCluster citation in
      insertCluster_each rest
  end.

Definition rebuildProcessorState (citations : list Citation) (format : string)
    (uncited : list JsVal) : M unit :=
  let* _ := modify_this (set_format format) in
  let* _ := _resetDriver in
  let* _ := insertCluster_each citations in
  let* _ :=
    setClusterOrder
      (map (fun citation =>
              (citationID citation, get "noteIndex" (properties citation)))
         citations) in
  updateUncitedItems uncited.

(** *** Lines 247-281: the bibliography *)

Definition makeBibliography : M (gmap string JsVal * list JsVal) :=
  let* bibliographyMeta := call_bibliographyMeta in
  let bibliographyMeta :=
    Object_assign bibliographyMeta
      (<["maxoffset" := get "maxOffset" bibliographyMeta]>
      (<["linespacing" := get "lineSpacing" bibliographyMeta]>
      (<["entryspacing" := get "entrySpacing" bibliographyMeta]>
      (<["hangingindent" := get "hangingIndent" bibliographyMeta]>
      (<["bibstart" := js_and (get "formatMeta" bibliographyMeta)
                         (get_prop "markupPre" (get "formatMeta" bibliographyMeta))]>
      (<["bibend" := js_and (get "formatMeta" bibliographyMeta)
                       (get_prop "markupPost" (get "formatMeta" bibliographyMeta))]>
       ∅)))))) in
  let bibliographyMeta :=
    <["second-field-align" := get "secondFieldAlign" bibliographyMeta]>
      bibliographyMeta in
  let* bibliographyEntries := call_makeBibliography in
  let entry_ids := map (fun entry => JArr [entry_id entry]) bibliographyEntries in
  let* self := get_this in
  let strings :=
    if String.eqb (_format self) "html" then
      map (fun entry =>
             JStr ("<div class=" +:+ dquote +:+ "csl-entry" +:+ dquote +:+ ">"
                   +:+ to_string (entry_value entry) +:+ "</div>"))
        bibliographyEntries
    else if String.eqb (_format self) "plain" then
      map (fun entry => JStr (to_string (entry_value entry) +:+ newline))
        bibliographyEntries
    else
      map (fun entry => entry_value entry) bibliographyEntries in
  ret (Object_assign (<["entry_ids" := JArr entry_ids]> ∅) bibliographyMeta,
       strings).

(** *** Lines 77-90: the constructor *)

(** [new Zotero.CiteprocRs.Engine(system, style, styleXML, locale, format,
    overrideLocale)], started from the trace [t]; [system] is the host's
    item provider. *)
Definition new_Engine (style : gmap string JsVal) (styleXML locale' : JsVal)
    (format : string) (overrideLocale : bool) (t : list Event)
    : Completion Engine * list Event :=
  let self :=
    {| _styleXML := styleXML; _overrideLocale := overrideLocale;
       locale := locale'; _format := format; _driver := None;
       styleID := JUndefined; hasBibliography := JUndefined;
       opt_sort_citations := false |} in
  match _resetDriver {| this := self; trace := t |} with
  | (Normal _, s) =>
      (Normal
         {| _styleXML := _styleXML (this s);
            _overrideLocale := _overrideLocale (this s);
            locale := locale (this s); _format := _format (this s);
            _driver := _driver (this s);
            styleID := get "styleID" style;
            hasBibliography := get "_hasBibliography" style;
            opt_sort_citations := true |},
       trace s)
  | (Throw e, s) => (Throw e, trace s)
  end.

End Methods.

(** ** Vocabulary of the statements *)

(** The item provider produces a record for [id]. *)
Definition resolves (host : Host) (id : JsVal) : Prop :=
  ∃ r, sys_retrieveItem host id = Normal r.

(** The handle [h] answers every ordinary call without raising. *)
Definition driver_accepts (host : Host) (h : nat) : Prop :=
  ∀ t c, ∃ v, driver_call host t h c = Normal v.

(** The Reference of the specification (4.1): the provider's record with its
    identifier forced to a string. *)
Definition reference_of (host : Host) (itemID : JsVal) : gmap string JsVal :=
  match sys_retrieveItem host itemID with
  | Normal r => <["id" := JStr (to_string (get "id" r))]> r
  | Throw _ => ∅
  end.

(** Resolving [itemID] and registering its reference with the handle [h]. *)
Definition register_events (host : Host) (h : nat) (itemID : JsVal) : list Event :=
  [EvRetrieveItem itemID; EvCall h (DInsertReference (reference_of host itemID))].

(** The display modifiers of a citation item. *)
Definition suppress_author (citationItem : gmap string JsVal) : bool :=
  truthy (get "suppress-author" citationItem).

Definition author_only (citationItem : gmap string JsVal) : bool :=
  truthy (get "author-only" citationItem).

(** The Cite of the specification (section 3) for a citation item: the
    reference's identifier as a string, the four copied modifiers, and the
    derived [mode]. *)
Definition is_cite_of (host : Host) (citationItem : gmap string JsVal)
    (cite : JsVal) : Prop :=
  ∃ c r,
    cite = JObj c ∧
    sys_retrieveItem host (get "id" citationItem) = Normal r ∧
    c !! "id" = Some (JStr (to_string (get "id" r))) ∧
    (∀ key, key ∈ ["locator"; "label"; "prefix"; "suffix"] →
       get key c =
         if truthy (get key citationItem) then get key citationItem
         else JUndefined) ∧
    c !! "mode" =
      if suppress_author citationItem then Some (JStr "SuppressAuthor")
      else if author_only citationItem then Some (JStr "AuthorOnly")
      else None.

(** The note of a ClusterOrder entry (specification, sections 3 and 4.2): a
    note index given as a string is read as an integer, and a falsy, zero or
    absent note index gives no note. *)
Definition normalized_note (noteIndex : JsVal) : option JsVal :=
  match noteIndex with
  | JStr s =>
      match parseInt s with
      | JNum z => if z =? 0 then None else Some (JNum z)
      | _ => None
      end
  | _ => if truthy noteIndex then Some noteIndex else None
  end.

(** The ClusterOrder entry [{id, note?}] of a [(citationID, noteIndex)] pair. *)
Definition order_entry (pair : JsVal * JsVal) : gmap string JsVal :=
  match normalized_note pair.2 with
  | Some n => <["note" := n]> (<["id" := pair.1]> ∅)
  | None => <["id" := pair.1]> ∅
  end.

(** The order entry of the cluster being previewed: it has no id, only the
    note of the citation. *)
Definition preview_entry (citation : Citation) : gmap string JsVal :=
  match normalized_note (get "noteIndex" (properties citation)) with
  | Some n => <["note" := n]> ∅
  | None => ∅
  end.

(** The citation after line 172, started from the trace [t]. *)
Definition with_citationID (host : Host) (t : list Event) (citation : Citation)
    : Citation :=
  if truthy (citationID citation) then citation
  else set_citationID (JStr (randomString host t 10)) citation.

(** The events of line 172. *)
Definition citationID_events (citation : Citation) : list Event :=
  if truthy (citationID citation) then [] else [EvRandomString 10].

(** The cites of a citation, as [_insertCitationReferences] returns them when
    every item resolves. *)
Definition cites_of (host : Host) (citation : Citation) : list JsVal :=
  map (λ item, JObj (build_cite item (reference_of host (get "id" item))))
    (citationItems citation).

(** Resolving and registering the reference of every item of a citation. *)
Definition references_events (host : Host) (h : nat) (citation : Citation)
    : list Event :=
  flat_map (λ item, register_events host h (get "id" item))
    (citationItems citation).

(** The calls that change what a handle holds: its lifetime, its output
    format, its references, its clusters, their order and the uncited set.
    The remaining calls only ask the handle for a rendering. *)
Definition mutates_handle (ev : Event) : bool :=
  match ev with
  | EvNew _ _ => true
  | EvCall _ c =>
      match c with
      | DFree | DSetOutputFormat _ | DInsertReference _ | DInsertCluster _
      | DSetClusterOrder _ | DIncludeUncited _ => true
      | _ => false
      end
  | _ => false
  end.

(** The same without the registration of references: the calls that change
    the committed clusters, their order, the uncited set, the output format
    or the lifetime of a handle. *)
Definition changes_document (ev : Event) : bool :=
  match ev with
  | EvCall _ (DInsertReference _) => false
  | _ => mutates_handle ev
  end.

(** What the specification asks of a preview (4.4): the session's fields, the
    state of the handle and the citation passed in are as before the call. *)
Definition preview_is_pure_query (host : Host) (citation : Citation)
    (citationsPre citationsPost : list (JsVal * JsVal)) (outputFormat : JsVal)
    (s : State) : Prop :=
  let out :=
    previewCitationCluster host citation citationsPre citationsPost outputFormat s in
  this out.2 = this s
  ∧ (∃ new, trace out.2 = trace s ++ new
            ∧ Forall (λ ev, mutates_handle ev = false) new)
  ∧ (∀ result citation', out.1 = Normal (result, citation') → citation' = citation).

(** A computation that leaves the session's fields alone and only adds events
    that satisfy [P] to the trace, however it ends. *)
Definition only_emits {A} (P : Event → Prop) (m : M A) : Prop :=
  ∀ s, this (m s).2 = this s
       ∧ ∃ new, trace (m s).2 = trace s ++ new ∧ Forall P new.

(** The output format that a request for [format] stands for: "text" is an
    alias of "plain". *)
Definition normalized_format (format : string) : string :=
  if decide (format = "text") then "plain" else format.

(** What a failed-state flag would have to do: a session that was just
    constructed is not flagged, and a session on which [free(false)] raised
    is. *)
Definition records_release_failure (failed : Engine → bool) : Prop :=
  (∀ host style styleXML locale format overrideLocale t e t',
     new_Engine host style styleXML locale format overrideLocale t = (Normal e, t') →
     failed e = false)
  ∧ (∀ host s e,
       (free host false s).1 = Throw e →
       failed (this (free host false s).2) = true).

(** The cluster that [insertCluster] hands to the engine for a citation whose
    items all resolve. *)
Definition cluster_of (host : Host) (citation : Citation) : gmap string JsVal :=
  <["cites" := JArr (cites_of host citation)]> (<["id" := citationID citation]> ∅).

(** The effects of inserting one citation as a cluster: the references of
    its items, then the cluster. *)
Definition insertCluster_events (host : Host) (h : nat) (citation : Citation)
    : list Event :=
  references_events host h citation
  ++ [EvCall h (DInsertCluster (cluster_of host citation))].

(** The identifiers that [updateUncitedItems] collects. *)
Definition uncited_ids (host : Host) (itemIDs : list JsVal) : list JsVal :=
  map (λ id, get "id" (reference_of host id)) itemIDs.

(** The effects of registering uncited items (specification, 4.5): each
    reference in turn, then the restriction of uncited inclusion to the
    collected identifiers. *)
Definition updateUncitedItems_events (host : Host) (h : nat)
    (itemIDs : list JsVal) : list Event :=
  flat_map (register_events host h) itemIDs
  ++ [EvCall h (DIncludeUncited (<["Specific" := JArr (uncited_ids host itemIDs)]> ∅))].

(** The options of a handle created for the session [e] under [format]. *)
Definition reset_options (e : Engine) (format : string) : DriverOptions :=
  {| o_style := _styleXML e;
     o_format := format;
     o_localeOverride := if _overrideLocale e then Some (locale e) else None |}.

(** The effects of a full rebuild (specification, 4.4), for a session [e]
    that holds the handle [h] and obtains the handle [h']. *)
Definition rebuild_events (host : Host) (e : Engine) (h h' : nat)
    (citations : list Citation) (format : string) (uncited : list JsVal)
    : list Event :=
  [EvCall h DFree; EvNew h' (reset_options e format)]
  ++ flat_map (insertCluster_events host h') citations
  ++ [EvCall h'
        (DSetClusterOrder
           (map (λ citation,
                   order_entry
                     (citationID citation, get "noteIndex" (properties citation)))
              citations))]
  ++ updateUncitedItems_events host h' uncited.

(** The engine never raises: every handle accepts every call and the
    constructor succeeds. *)
Definition engine_cooperates (host : Host) : Prop :=
  (∀ h, driver_accepts host h) ∧ (∀ t options, driver_new host t options = None).

(** Events that would touch the document-wide order or draw a fresh
    [citationID]. *)
Definition orders_or_names (ev : Event) : bool :=
  match ev with
  | EvRandomString _ | EvCall _ (DSetClusterOrder _) => true
  | _ => false
  end.

(** The citeproc-js names that [makeBibliography] adds to the engine's
    metadata. *)
Definition translated_names : list string :=
  ["maxoffset"; "linespacing"; "entryspacing"; "hangingindent"; "bibstart";
   "bibend"; "second-field-align"].

(** The wrapping of one bibliography entry under an output format
    (specification, 4.6 step 3). *)
Definition wrap_entry (format : string) (value : JsVal) : JsVal :=
  if decide (format = "html") then
    JStr ("<div class=" +:+ dquote +:+ "csl-entry" +:+ dquote +:+ ">"
          +:+ to_string value +:+ "</div>")
  else if decide (format = "plain") then JStr (to_string value +:+ newline)
  else value.

(** ** A concrete host and session for examples *)

(** A provider that knows every item and keys it by the id it was asked for,
    and an engine that accepts every call. *)
Definition demo_meta : gmap string JsVal :=
  <["maxOffset" := JNum 2]> (<["lineSpacing" := JNum 1]>
  (<["entrySpacing" := JNum 0]> (<["hangingIndent" := JBool true]>
  (<["secondFieldAlign" := JBool false]>
  (<["formatMeta" :=
       JObj (<["markupPre" := JStr "<div>"]> (<["markupPost" := JStr "</div>"]> ∅))]>
   ∅))))).

Definition demo_entries : list BibEntry :=
  [ {| entry_id := JStr "a"; entry_value := JStr "X" |};
    {| entry_id := JStr "b"; entry_value := JStr "Y" |} ].

Definition demo_host : Host :=
  {| sys_retrieveItem := λ id, Normal (<["id" := id]> (<["type" := JStr "book"]> ∅));
     randomString := λ _ _, "Zq3x8LmPw0";
     driver_new := λ _ _, None;
     driver_call := λ _ _ c,
       match c with
       | DPreviewCluster _ _ _ | DBuiltCluster _ => Normal (JStr "(Doe 2020)")
       | DBatchedUpdates => Normal (JArr [])
       | _ => Normal JUndefined
       end;
     driver_bibliographyMeta := λ _ _, Normal demo_meta;
     driver_makeBibliography := λ _ _, Normal demo_entries |}.

(** The same, except that releasing a handle raises. *)
Definition leaky_host : Host :=
  {| sys_retrieveItem := sys_retrieveItem demo_host;
     randomString := randomString demo_host;
     driver_new := driver_new demo_host;
     driver_call := λ t h c,
       match c with
       | DFree => Throw (JStr "null pointer passed to rust")
       | _ => driver_call demo_host t h c
       end;
     driver_bibliographyMeta := driver_bibliographyMeta demo_host;
     driver_makeBibliography := driver_makeBibliography demo_host |}.

(** The session [new Engine(sys, style, "<style/>", "en-US", "html")] on its
    first handle. *)
Definition demo_engine : Engine :=
  {| _styleXML := JStr "<style/>"; _overrideLocale := false;
     locale := JStr "en-US"; _format := "html"; _driver := Some 0%nat;
     styleID := JStr "http://www.zotero.org/styles/apa";
     hasBibliography := JBool true; opt_sort_citations := true |}.

Definition demo_state : State :=
  {| this := demo_engine;
     trace := [EvNew 0 {| o_style := JStr "<style/>"; o_format := "html";
                          o_localeOverride := None |}] |}.

(** A citation of two items in note 2 that has no [citationID] yet, and one
    that has. *)
Definition demo_items : list (gmap string JsVal) :=
  [ <["id" := JNum 5]> (<["locator" := JStr "12"]>
      (<["suppress-author" := JBool true]> ∅));
    <["id" := JNum 7]> (<["prefix" := JStr "see "]> ∅) ].

Definition demo_citation : Citation :=
  {| citationID := JUndefined; citationItems := demo_items;
     properties := <["noteIndex" := JStr "2"]> ∅ |}.

Definition demo_citation_named : Citation :=
  set_citationID (JStr "c1") demo_citation.

(** ** Vocabulary of the further properties *)

(** An event that is no construction of a handle and, if it is a call, is a
    call on the handle [h]. *)
Definition addressed_to (h : nat) (ev : Event) : Prop :=
  match ev with
  | EvCall h' _ => h' = h
  | EvNew _ _ => False
  | _ => True
  end.

(** A computation that, run on a session that holds the handle [h], leaves
    every field of the session as it was and only talks to [h], however it
    ends. *)
Definition confined {A} (h : nat) (m : M A) : Prop :=
  ∀ s, _driver (this s) = Some h →
       this (m s).2 = this s
       ∧ ∃ new, trace (m s).2 = trace s ++ new ∧ Forall (addressed_to h) new.

(** The property names that a cite can have. *)
Definition cite_names : list string :=
  ["id"; "locator"; "locators"; "mode"; "label"; "prefix"; "suffix"].

(** A provider that does not know item 404, with the engine of [demo_host]. *)
Definition forgetful_host : Host :=
  {| sys_retrieveItem := λ id,
       match id with
       | JNum 404 => Throw (JStr "item not found")
       | _ => sys_retrieveItem demo_host id
       end;
     randomString := randomString demo_host;
     driver_new := driver_new demo_host;
     driver_call := driver_call demo_host;
     driver_bibliographyMeta := driver_bibliographyMeta demo_host;
     driver_makeBibliography := driver_makeBibliography demo_host |}.

(** An engine whose constructor rejects the style. *)
Definition stubborn_host : Host :=
  {| sys_retrieveItem := sys_retrieveItem demo_host;
     randomString := randomString demo_host;
     driver_new := λ _ _, Some (JStr "invalid style");
     driver_call := driver_call demo_host;
     driver_bibliographyMeta := driver_bibliographyMeta demo_host;
     driver_makeBibliography := driver_makeBibliography demo_host |}.

(** An engine whose handles refuse to switch the output format. *)
Definition rigid_host : Host :=
  {| sys_retrieveItem := sys_retrieveItem demo_host;
     randomString := randomString demo_host;
     driver_new := driver_new demo_host;
     driver_call := λ t h c,
       match c with
       | DSetOutputFormat _ => Throw (JStr "unknown output format")
       | _ => driver_call demo_host t h c
       end;
     driver_bibliographyMeta := driver_bibliographyMeta demo_host;
     driver_makeBibliography := driver_makeBibliography demo_host |}.

(** A citation whose second item is unknown to [forgetful_host]. *)
Definition broken_citation : Citation :=
  {| citationID := JStr "c2";
     citationItems :=
       [ <["id" := JNum 5]> ∅; <["id" := JNum 404]> ∅; <["id" := JNum 7]> ∅ ];
     properties := ∅ |}.

(** The public methods of a session, as a client calls them. *)
Inductive MethodCall : Type :=
| CallFree (ignoreErrors : bool)
| CallSetOutputFormat (format : string)
| CallPreviewCitationCluster (citation : Citation)
    (citationsPre citationsPost : list (JsVal * JsVal)) (outputFormat : JsVal)
| CallAppendCitationCluster (citation : Citation)
| CallInsertCluster (citation : Citation)
| CallSetClusterOrder (citations : list (JsVal * JsVal))
| CallGetBatchedUpdates
| CallRebuildProcessorState (citations : list Citation) (format : string)
    (uncited : list JsVal)
| CallUpdateUncitedItems (itemIDs : list JsVal)
| CallUpdateItems (itemIDs : list JsVal)
| CallMakeBibliography.

(** The state in which a method call leaves the session and the trace,
    whether it returns or raises. *)
Definition after_call (host : Host) (s : State) (c : MethodCall) : State :=
  match c with
  | CallFree ignoreErrors => (free host ignoreErrors s).2
  | CallSetOutputFormat format => (setOutputFormat host format s).2
  | CallPreviewCitationCluster citation citationsPre citationsPost outputFormat =>
      (previewCitationCluster host citation citationsPre citationsPost
         outputFormat s).2
  | CallAppendCitationCluster citation => (appendCitationCluster host citation s).2
  | CallInsertCluster citation => (insertCluster host citation s).2
  | CallSetClusterOrder citations => (setClusterOrder host citations s).2
  | CallGetBatchedUpdates => (getBatchedUpdates host s).2
  | CallRebuildProcessorState citations format uncited =>
      (rebuildProcessorState host citations format uncited s).2
  | CallUpdateUncitedItems itemIDs => (updateUncitedItems host itemIDs s).2
  | CallUpdateItems itemIDs => (updateItems host itemIDs s).2
  | CallMakeBibliography => (makeBibliography host s).2
  end.

(** A computation after which a session that held a handle still holds one. *)
Definition keeps_a_handle {A} (m : M A) : Prop :=
  ∀ s, is_Some (_driver (this s)) → is_Some (_driver (this (m s).2)).

(** Whether an event is an [includeUncited] call. *)
Definition is_includeUncited (ev : Event) : bool :=
  match ev with
  | EvCall _ (DIncludeUncited _) => true
  | _ => false
  end.

(** ** Lines 35-74: [Zotero.CiteprocRs.init] *)

(** [init] is an [async] function: a call runs until its first [await],
    and is resumed when the awaited promise settles; calls may overlap.  The
    embedding keeps the two fields of [Zotero.CiteprocRs] that [init] uses,
    the state of every call made so far, and what the calls loaded, and it
    advances by the steps that the event loop can take. *)

(** The promise of [Zotero.CiteprocRs.deferred].  [init] is called as a method
    of [Zotero.CiteprocRs], so the [this.Driver] that it sets is a field of
    the same object. *)
Inductive DeferredState : Type :=
| DeferredPending
| DeferredResolved.

Record CiteprocRs : Type := {
  deferred : option DeferredState;
  Driver : option JsVal;
}.

(** Where a call of [init] stands: suspended at the first or the second
    [await], or settled; a call that returned [deferred.promise] settles as
    that promise does. *)
Inductive InitCall : Type :=
| AwaitsRequest
| AwaitsInstantiate
| ReturnedDeferred
| InitFulfilled
| InitRejected (e : JsVal).

Inductive InitEvent : Type :=
| EvLoadSubScript
| EvRequire
| EvHttpRequest
| EvInstantiate (response : JsVal).

Record InitState : Type := {
  Zotero_CiteprocRs : CiteprocRs;
  init_calls : list InitCall;
  init_log : list InitEvent;
}.

(** What can happen next: a new call of [init()], during which
    [loadSubScript] and [require] may throw ([Some e]); the HTTP request of
    the call number [i] settles, with [xhr.response] or an error; the
    instantiation of the wasm binary for the call number [i] settles. *)
Inductive InitStep : Type :=
| StepCall (loadSubScript require : option JsVal)
| StepRequestSettles (i : nat) (answer : Completion JsVal)
| StepInstantiateSettles (i : nat) (answer : Completion JsVal).

Definition init_fresh : InitState :=
  {| Zotero_CiteprocRs := {| deferred := None; Driver := None |};
     init_calls := [];
     init_log := [] |}.

(** Lines 36-66, up to the first [await]. *)
Definition init_call (loadSubScript require : option JsVal) (st : InitState)
    : InitState :=
  match deferred (Zotero_CiteprocRs st) with
  | Some _ =>
      {| Zotero_CiteprocRs := Zotero_CiteprocRs st;
         init_calls := init_calls st ++ [ReturnedDeferred];
         init_log := init_log st |}
  | None =>
      let shared :=
        {| deferred := Some DeferredPending;
           Driver := Driver (Zotero_CiteprocRs st) |} in
      match loadSubScript with
      | Some e =>
          {| Zotero_CiteprocRs := shared;
             init_calls := init_calls st ++ [InitRejected e];
             init_log := init_log st ++ [EvLoadSubScript] |}
      | None =>
          match require with
          | Some e =>
              {| Zotero_CiteprocRs := shared;
                 init_calls := init_calls st ++ [InitRejected e];
                 init_log := init_log st ++ [EvLoadSubScript; EvRequire] |}
          | None =>
              {| Zotero_CiteprocRs := shared;
                 init_calls := init_calls st ++ [AwaitsRequest];
                 init_log := init_log st
                             ++ [EvLoadSubScript; EvRequire; EvHttpRequest] |}
          end
      end
  end.

(** Lines 66-70: the request settled; [CiteprocRs(xhr.response)] is called
    and awaited. *)
Definition init_request_settles (i : nat) (answer : Completion JsVal)
    (st : InitState) : InitState :=
  match init_calls st !! i with
  | Some AwaitsRequest =>
      match answer with
      | Normal response =>
          {| Zotero_CiteprocRs := Zotero_CiteprocRs st;
             init_calls := <[i := AwaitsInstantiate]> (init_calls st);
             init_log := init_log st ++ [EvInstantiate response] |}
      | Throw e =>
          {| Zotero_CiteprocRs := Zotero_CiteprocRs st;
             init_calls := <[i := InitRejected e]> (init_calls st);
             init_log := init_log st |}
      end
  | _ => st
  end.

(** Lines 70-73: the instantiation settled; [driverClass] is
    [CiteprocRs.Driver] of the required module. *)
Definition init_instantiate_settles (driverClass : JsVal) (i : nat)
    (answer : Completion JsVal) (st : InitState) : InitState :=
  match init_calls st !! i with
  | Some AwaitsInstantiate =>
      match answer with
      | Normal _ =>
          match deferred (Zotero_CiteprocRs st) with
          | Some _ =>
              {| Zotero_CiteprocRs :=
                   {| deferred := Some DeferredResolved;
                      Driver := Some driverClass |};
                 init_calls := <[i := InitFulfilled]> (init_calls st);
                 init_log := init_log st |}
          | None =>
              {| Zotero_CiteprocRs :=
                   {| deferred := None; Driver := Some driverClass |};
                 init_calls := <[i := InitRejected TypeError]> (init_calls st);
                 init_log := init_log st |}
          end
      | Throw e =>
          {| Zotero_CiteprocRs := Zotero_CiteprocRs st;
             init_calls := <[i := InitRejected e]> (init_calls st);
             init_log := init_log st |}
      end
  | _ => st
  end.

Definition init_step (driverClass : JsVal) (st : InitState) (step : InitStep)
    : InitState :=
  match step with
  | StepCall loadSubScript require => init_call loadSubScript require st
  | StepRequestSettles i answer => init_request_settles i answer st
  | StepInstantiateSettles i answer =>
      init_instantiate_settles driverClass i answer st
  end.

(** The state after a sequence of steps. *)
Definition init_run (driverClass : JsVal) (st : InitState)
    (steps : list InitStep) : InitState :=
  foldl (init_step driverClass) st steps.

(** What holds of the call that started the loading, by where it stands. *)
Definition init_owner_ok (driverClass : JsVal) (owner : InitCall)
    (st : InitState) : Prop :=
  match owner with
  | AwaitsRequest =>
      Zotero_CiteprocRs st = {| deferred := Some DeferredPending; Driver := None |}
      ∧ init_log st = [EvLoadSubScript; EvRequire; EvHttpRequest]
  | AwaitsInstantiate =>
      Zotero_CiteprocRs st = {| deferred := Some DeferredPending; Driver := None |}
      ∧ ∃ response,
          init_log st
          = [EvLoadSubScript; EvRequire; EvHttpRequest; EvInstantiate response]
  | InitRejected _ =>
      Zotero_CiteprocRs st = {| deferred := Some DeferredPending; Driver := None |}
      ∧ ∃ response,
          init_log st `prefix_of`
            [EvLoadSubScript; EvRequire; EvHttpRequest; EvInstantiate response]
  | InitFulfilled =>
      Zotero_CiteprocRs st
      = {| deferred := Some DeferredResolved; Driver := Some driverClass |}
      ∧ ∃ response,
          init_log st
          = [EvLoadSubScript; EvRequire; EvHttpRequest; EvInstantiate response]
  | ReturnedDeferred => False
  end.

(** The states that [init] can reach: nothing has happened, or the first
    call owns the loading and every later call returned the deferred
    promise. *)
Definition init_invariant (driverClass : JsVal) (st : InitState) : Prop :=
  st = init_fresh
  ∨ ∃ owner followers,
      init_calls st = owner :: followers
      ∧ Forall (λ c, c = ReturnedDeferred) followers
      ∧ init_owner_ok driverClass owner st.

(** ** Basic facts *)

Ltac split_truthy :=
  repeat match goal with
         | |- context [truthy ?v] =>
             let E := fresh "E" in destruct (truthy v) eqn:E; simpl
         end.

Lemma get_insert_eq (key : string) (v : JsVal) (o : gmap string JsVal) :
  get key (<[key := v]> o) = v.
Proof. unfold get. by rewrite lookup_insert_eq. Qed.

Lemma getClusterOrder_snoc (citations : list (JsVal * JsVal)) :
  ∀ clusters,
    fold_left (fun clusters pair => clusters ++ [cluster_order_entry pair])
      citations clusters
    = clusters ++ map cluster_order_entry citations.
Proof.
  induction citations as [|pair citations IH]; intros clusters; simpl.
  - by rewrite app_nil_r.
  - rewrite IH. by rewrite <- app_assoc.
Qed.

(** The loop of [_getClusterOrder] produces one entry per pair, in order. *)
Lemma getClusterOrder_map (citations : list (JsVal * JsVal)) :
  _getClusterOrder citations = map cluster_order_entry citations.
Proof. unfold _getClusterOrder. by rewrite getClusterOrder_snoc. Qed.

Lemma build_cite_id (citationItem citeprocItem : gmap string JsVal) :
  build_cite citationItem citeprocItem !! "id"
  = Some (JStr (to_string (get "id" citeprocItem))).
Proof.
  unfold build_cite, additionalCSLProperties, add_cite_property; simpl.
  repeat match goal with
         | |- context [truthy ?v] => destruct (truthy v); simpl
         end;
    by simplify_map_eq.
Qed.

Lemma build_cite_copied (citationItem citeprocItem : gmap string JsVal)
    (key : string) :
  key ∈ ["locator"; "label"; "prefix"; "suffix"] →
  get key (build_cite citationItem citeprocItem)
  = if truthy (get key citationItem) then get key citationItem else JUndefined.
Proof.
  intros Hkey.
  repeat (apply elem_of_cons in Hkey as [-> | Hkey]);
    [ | | | | by apply elem_of_nil in Hkey ];
    unfold build_cite, additionalCSLProperties, add_cite_property, get; simpl;
    split_truthy; by simplify_map_eq.
Qed.

Lemma build_cite_mode (citationItem citeprocItem : gmap string JsVal) :
  build_cite citationItem citeprocItem !! "mode"
  = if author_only citationItem then Some (JStr "AuthorOnly")
    else if suppress_author citationItem then Some (JStr "SuppressAuthor")
    else None.
Proof.
  unfold build_cite, additionalCSLProperties, add_cite_property,
    author_only, suppress_author; simpl.
  split_truthy; by simplify_map_eq.
Qed.

(** *** Running the calls that leave the bridge *)

Section Runs.

Variable host : Host.
Variable h : nat.
Hypothesis accepts : driver_accepts host h.

Lemma call_driver_run (c : DriverCall) (s : State) :
  _driver (this s) = Some h →
  ∃ v, call_driver host c s = (Normal v, emit (EvCall h c) s)
       ∧ driver_call host (trace s) h c = Normal v.
Proof.
  intros Hh. unfold call_driver. rewrite Hh.
  destruct (accepts (trace s) c) as [v Hv]. rewrite Hv. eauto.
Qed.

Lemma insertCitationReferences_loop_run (items : list (gmap string JsVal)) :
  ∀ (cites : list JsVal) (s : State),
    _driver (this s) = Some h →
    Forall (λ item, resolves host (get "id" item)) items →
    _insertCitationReferences_loop host items cites s
    = (Normal
         (cites ++
          map (λ item, JObj (build_cite item (reference_of host (get "id" item))))
            items),
       {| this := this s;
          trace := trace s ++
            flat_map (λ item, register_events host h (get "id" item)) items |}).
Proof.
  induction items as [|item items IH]; intros cites s Hh Hres; simpl.
  - unfold ret. rewrite !app_nil_r. by destruct s.
  - apply Forall_cons in Hres as [[r Hr] Hres].
    unfold bind at 1. unfold retrieveItem at 1. rewrite Hr.
    unfold bind at 1.
    destruct (call_driver_run
                (DInsertReference (<["id" := JStr (to_string (get "id" r))]> r))
                (emit (EvRetrieveItem (get "id" item)) s) Hh)
      as (v & -> & _).
    rewrite IH by done. simpl.
    assert (reference_of host (get "id" item)
            = <["id" := JStr (to_string (get "id" r))]> r) as ->
      by (unfold reference_of; by rewrite Hr).
    by rewrite <- !app_assoc.
Qed.

Lemma insertCitationReferences_run (citation : Citation) (s : State) :
  _driver (this s) = Some h →
  Forall (λ item, resolves host (get "id" item)) (citationItems citation) →
  _insertCitationReferences host citation s
  = (Normal
       (map (λ item, JObj (build_cite item (reference_of host (get "id" item))))
          (citationItems citation)),
     {| this := this s;
        trace := trace s ++
          flat_map (λ item, register_events host h (get "id" item))
            (citationItems citation) |}).
Proof.
  intros Hh Hres. unfold _insertCitationReferences.
  by rewrite insertCitationReferences_loop_run.
Qed.

End Runs.

(** ** The cites of a cluster *)

Lemma Forall2_map_r_intro {A B} (P : A → B → Prop) (f : A → B) (l : list A) :
  Forall (λ x, P x (f x)) l → Forall2 P l (map f l).
Proof. induction 1; simpl; by constructor. Qed.

(** C1: for a citation whose items all resolve and in which no item has both
    suppress-author and author-only active, [_insertCitationReferences]
    returns one Cite per citation item, in the order of the items; each Cite
    has the string form of the resolved reference's id, carries
    locator/label/prefix/suffix exactly when they are truthy in the item, and
    has mode "SuppressAuthor", "AuthorOnly" or no mode at all according to the
    item's modifier. *)
Theorem insertCitationReferences_cites (host : Host) (h : nat)
    (citation : Citation) (s : State) :
  _driver (this s) = Some h →
  driver_accepts host h →
  Forall (λ item, resolves host (get "id" item)) (citationItems citation) →
  Forall (λ item, ¬ (suppress_author item ∧ author_only item))
    (citationItems citation) →
  ∃ cites s',
    _insertCitationReferences host citation s = (Normal cites, s') ∧
    length cites = length (citationItems citation) ∧
    Forall2 (is_cite_of host) (citationItems citation) cites.
Proof.
  intros Hh Hacc Hres Hexcl.
  rewrite (insertCitationReferences_run host h Hacc citation s Hh Hres).
  eexists _, _. split; [done|]. split; [by rewrite length_map|].
  apply Forall2_map_r_intro.
  rewrite Forall_forall in Hres, Hexcl. apply Forall_forall. intros item Hin.
  destruct (Hres item Hin) as [r Hr]. specialize (Hexcl item Hin).
  exists (build_cite item (reference_of host (get "id" item))), r.
  split; [done|]. split; [done|].
  assert (get "id" (reference_of host (get "id" item))
          = JStr (to_string (get "id" r))) as Hid
    by (unfold reference_of; rewrite Hr; apply get_insert_eq).
  split; [by rewrite build_cite_id, Hid|].
  split; [intros key Hkey; by apply build_cite_copied|].
  rewrite build_cite_mode.
  destruct (suppress_author item), (author_only item); try done.
  exfalso. by apply Hexcl.
Qed.

Lemma insertCitationReferences_cites_witness :
  ∃ cites s',
    _insertCitationReferences demo_host demo_citation demo_state
    = (Normal cites, s') ∧
    length cites = length (citationItems demo_citation) ∧
    Forall2 (is_cite_of demo_host) (citationItems demo_citation) cites.
Proof.
  apply (insertCitationReferences_cites demo_host 0 demo_citation demo_state).
  - reflexivity.
  - intros t c. destruct c; eexists; reflexivity.
  - repeat constructor; eexists; reflexivity.
  - repeat constructor; vm_compute; tauto.
Defined.

(** ** Cluster order *)

Lemma parseInt_cases (s : string) :
  parseInt s = JNaN ∨ ∃ z, parseInt s = JNum z.
Proof. unfold parseInt. destruct (parse_digits _ _ _); eauto. Qed.

(** The entry that the loop of [_getClusterOrder] builds is the normalized
    entry of the specification. *)
Lemma cluster_order_entry_normalized (pair : JsVal * JsVal) :
  cluster_order_entry pair = order_entry pair.
Proof.
  destruct pair as [id noteIndex].
  unfold cluster_order_entry, order_entry, normalized_note; simpl.
  destruct noteIndex as [| |b|z| |s|o|l]; simpl; try done.
  - by destruct b.
  - by destruct (z =? 0).
  - destruct (parseInt_cases s) as [-> | [z ->]]; simpl; [done|].
    by destruct (z =? 0).
Qed.

Lemma splice_insert_app {A} (x : A) (l1 l2 : list A) :
  splice_insert (length l1) x (l1 ++ l2) = l1 ++ x :: l2.
Proof.
  unfold splice_insert. by rewrite take_app_length, drop_app_length.
Qed.

(** Lines 177-182 build the normalized entry of the previewed cluster. *)
Lemma preview_entry_normalized (citation : Citation) :
  (let noteIndex := get "noteIndex" (properties citation) in
   let noteIndex :=
     if is_string noteIndex then parseInt (to_string noteIndex) else noteIndex in
   if truthy noteIndex then <["note" := noteIndex]> (∅ : gmap string JsVal) else ∅)
  = preview_entry citation.
Proof.
  unfold preview_entry, normalized_note; simpl.
  destruct (get "noteIndex" (properties citation)) as [| |b|z| |s|o|l];
    simpl; try done.
  - by destruct b.
  - by destruct (z =? 0).
  - destruct (parseInt_cases s) as [-> | [z ->]]; simpl; [done|].
    by destruct (z =? 0).
Qed.

Lemma citationID_step (host : Host) (citation : Citation) (s : State) :
  (if negb (truthy (citationID citation)) then
     let* id := Utilities_randomString host 10 in
     ret (set_citationID (JStr id) citation)
   else ret citation) s
  = (Normal (with_citationID host (trace s) citation),
     {| this := this s; trace := trace s ++ citationID_events citation |}).
Proof.
  unfold with_citationID, citationID_events.
  destruct (truthy (citationID citation)); simpl.
  - unfold ret. rewrite app_nil_r. by destruct s.
  - reflexivity.
Qed.

Lemma previewCitationCluster_run (host : Host) (h : nat) (citation : Citation)
    (citationsPre citationsPost : list (JsVal * JsVal)) (outputFormat : JsVal)
    (s : State) :
  _driver (this s) = Some h →
  driver_accepts host h →
  Forall (λ item, resolves host (get "id" item)) (citationItems citation) →
  ∃ result,
    previewCitationCluster host citation citationsPre citationsPost outputFormat s
    = (Normal (result, with_citationID host (trace s) citation),
       {| this := this s;
          trace :=
            (trace s ++ citationID_events citation
             ++ references_events host h citation)
            ++ [EvCall h
                  (DPreviewCluster (<["cites" := JArr (cites_of host citation)]> ∅)
                     (map order_entry citationsPre ++
                      preview_entry citation :: map order_entry citationsPost)
                     outputFormat)] |}).
Proof.
  intros Hh Hacc Hres. unfold previewCitationCluster.
  unfold bind at 1. rewrite citationID_step.
  assert (citationItems (with_citationID host (trace s) citation)
          = citationItems citation) as Hitems
    by (unfold with_citationID; by destruct (truthy _)).
  assert (properties (with_citationID host (trace s) citation)
          = properties citation) as Hprops
    by (unfold with_citationID; by destruct (truthy _)).
  unfold bind at 1.
  rewrite (insertCitationReferences_run host h Hacc) by (by rewrite ?Hitems).
  rewrite Hitems, Hprops.
  rewrite getClusterOrder_map, map_app.
  rewrite <- (length_map cluster_order_entry citationsPre), splice_insert_app.
  rewrite !(map_ext _ _ cluster_order_entry_normalized).
  rewrite preview_entry_normalized.
  unfold bind at 1.
  match goal with
  | |- context [call_driver host ?c ?s0] =>
      destruct (call_driver_run host h Hacc c s0 Hh) as (v & -> & _)
  end.
  exists v. unfold ret, emit, cites_of, references_events; simpl.
  by rewrite <- !app_assoc.
Qed.

(** C2: the cluster order that [previewCitationCluster] submits to the engine
    has [length citationsPre + 1 + length citationsPost] entries; below index
    [length citationsPre] they are the normalized entries of [citationsPre],
    in order; above it those of [citationsPost], in order; and at index
    [length citationsPre] stands the order entry of the previewed cluster
    itself, which carries its normalized note index or nothing. *)
Theorem previewCitationCluster_order (host : Host) (h : nat) (citation : Citation)
    (citationsPre citationsPost : list (JsVal * JsVal)) (outputFormat : JsVal)
    (s : State) :
  _driver (this s) = Some h →
  driver_accepts host h →
  Forall (λ item, resolves host (get "id" item)) (citationItems citation) →
  ∃ result citation' t cluster order,
    previewCitationCluster host citation citationsPre citationsPost outputFormat s
    = (Normal (result, citation'),
       {| this := this s;
          trace := t ++ [EvCall h (DPreviewCluster cluster order outputFormat)] |})
    ∧ length order = (length citationsPre + 1 + length citationsPost)%nat
    ∧ (∀ i pair, citationsPre !! i = Some pair →
         order !! i = Some (order_entry pair))
    ∧ order !! length citationsPre = Some (preview_entry citation)
    ∧ (∀ j pair, citationsPost !! j = Some pair →
         order !! (length citationsPre + 1 + j)%nat = Some (order_entry pair)).
Proof.
  intros Hh Hacc Hres.
  destruct (previewCitationCluster_run host h citation citationsPre citationsPost
              outputFormat s Hh Hacc Hres) as [result ->].
  eexists _, _, _, _, _. split; [reflexivity|].
  assert (length (map order_entry citationsPre) = length citationsPre) as Hlen
    by apply length_map.
  repeat split.
  - rewrite length_app, length_cons, !length_map. lia.
  - intros i pair Hi. rewrite lookup_app_l.
    + by rewrite list_lookup_fmap, Hi.
    + rewrite Hlen. by eapply lookup_lt_Some.
  - rewrite lookup_app_r by lia. by rewrite Hlen, Nat.sub_diag.
  - intros j pair Hj. rewrite lookup_app_r by lia.
    replace (length citationsPre + 1 + j - length (map order_entry citationsPre))%nat
      with (S j) by lia.
    simpl. by rewrite list_lookup_fmap, Hj.
Qed.

Lemma previewCitationCluster_order_witness :
  ∃ result citation' t cluster order,
    previewCitationCluster demo_host demo_citation
      [(JStr "a", JNum 1)] [(JStr "b", JStr "3"); (JStr "c", JUndefined)]
      (JStr "html") demo_state
    = (Normal (result, citation'),
       {| this := this demo_state;
          trace := t ++ [EvCall 0 (DPreviewCluster cluster order (JStr "html"))] |})
    ∧ length order = 4%nat
    ∧ (∀ i pair, [(JStr "a", JNum 1)] !! i = Some pair →
         order !! i = Some (order_entry pair))
    ∧ order !! 1%nat = Some (preview_entry demo_citation)
    ∧ (∀ j pair, [(JStr "b", JStr "3"); (JStr "c", JUndefined)] !! j = Some pair →
         order !! (1 + 1 + j)%nat = Some (order_entry pair)).
Proof.
  apply (previewCitationCluster_order demo_host 0 demo_citation
           [(JStr "a", JNum 1)] [(JStr "b", JStr "3"); (JStr "c", JUndefined)]
           (JStr "html") demo_state).
  - reflexivity.
  - intros t c. destruct c; eexists; reflexivity.
  - repeat constructor; eexists; reflexivity.
Defined.

Example order_entry_string_note :
  order_entry (JStr "b", JStr "3") = <["note" := JNum 3]> (<["id" := JStr "b"]> ∅)
  ∧ order_entry (JStr "c", JNum 0) = <["id" := JStr "c"]> ∅
  ∧ preview_entry demo_citation = <["note" := JNum 2]> ∅.
Proof. by vm_compute. Qed.

(** ** What a preview touches *)

Section Frames.

Context {P : Event → Prop}.

Lemma only_emits_ret {A} (a : A) : only_emits P (ret a).
Proof. intros s. split; [done|]. exists []. by rewrite app_nil_r. Qed.

Lemma only_emits_bind {A B} (m : M A) (f : A → M B) :
  only_emits P m → (∀ a, only_emits P (f a)) → only_emits P (bind m f).
Proof.
  intros Hm Hf s. unfold bind.
  destruct (Hm s) as (Hthis & new & Htrace & Hnew).
  destruct (m s) as [[a|e] s1]; simpl in *.
  - destruct (Hf a s1) as (Hthis' & new' & Htrace' & Hnew').
    split; [congruence|]. exists (new ++ new').
    rewrite Htrace', Htrace, app_assoc. split; [done|]. by apply Forall_app.
  - split; [done|]. by exists new.
Qed.

Lemma only_emits_call_driver (host : Host) (c : DriverCall) :
  (∀ h, P (EvCall h c)) → only_emits P (call_driver host c).
Proof.
  intros Hc s. unfold call_driver.
  destruct (_driver (this s)) as [h|]; simpl.
  - split; [done|]. exists [EvCall h c]. split; [done|]. by repeat constructor.
  - split; [done|]. exists []. by rewrite app_nil_r.
Qed.

Lemma only_emits_retrieveItem (host : Host) (id : JsVal) :
  P (EvRetrieveItem id) → only_emits P (retrieveItem host id).
Proof.
  intros Hid s. split; [done|]. exists [EvRetrieveItem id].
  split; [done|]. by repeat constructor.
Qed.

Lemma only_emits_randomString (host : Host) (len : nat) :
  P (EvRandomString len) → only_emits P (Utilities_randomString host len).
Proof.
  intros Hlen s. split; [done|]. exists [EvRandomString len].
  split; [done|]. by repeat constructor.
Qed.

End Frames.

Lemma insertCitationReferences_only_registers (host : Host) (citation : Citation) :
  only_emits (λ ev, changes_document ev = false)
    (_insertCitationReferences host citation).
Proof.
  unfold _insertCitationReferences. generalize (@nil JsVal).
  induction (citationItems citation) as [|item items IH]; intros cites; simpl.
  - apply only_emits_ret.
  - apply only_emits_bind; [by apply only_emits_retrieveItem|]. intros r.
    apply only_emits_bind; [by apply only_emits_call_driver|]. intros _.
    apply IH.
Qed.

(** The citation that a preview returns is the one it was given, with a
    [citationID] assigned when it had none. *)
Lemma previewCitationCluster_citation (host : Host) (citation : Citation)
    (citationsPre citationsPost : list (JsVal * JsVal)) (outputFormat : JsVal)
    (s : State) (result : JsVal) (citation' : Citation) :
  (previewCitationCluster host citation citationsPre citationsPost outputFormat s).1
  = Normal (result, citation') →
  citation' = with_citationID host (trace s) citation.
Proof.
  unfold previewCitationCluster. unfold bind at 1. rewrite citationID_step.
  unfold bind at 1. destruct (_insertCitationReferences _ _ _) as [[cites|e] s1];
    [|done].
  unfold bind at 1. destruct (call_driver _ _ _) as [[v|e] s2]; [|done].
  unfold ret; simpl. by intros [= _ <-].
Qed.

(** C3, as the code has it: [previewCitationCluster] leaves every field of
    the session unchanged and issues no call that changes the committed
    clusters, their order, the uncited set, the output format or the lifetime
    of the handle, however the call ends; what it does change is the handle's
    reference registry (one [insertReference] per cited item, before the one
    [previewCluster] query) and, when the citation passed in has no
    [citationID], the citation, which receives a random one.  A citation that
    has a [citationID] is returned as it was. *)
Theorem previewCitationCluster_frame (host : Host) (citation : Citation)
    (citationsPre citationsPost : list (JsVal * JsVal)) (outputFormat : JsVal)
    (s : State) :
  let out :=
    previewCitationCluster host citation citationsPre citationsPost outputFormat s in
  this out.2 = this s
  ∧ (∃ new, trace out.2 = trace s ++ new
            ∧ Forall (λ ev, changes_document ev = false) new)
  ∧ (∀ result citation', out.1 = Normal (result, citation') →
       citation' =
         if truthy (citationID citation) then citation
         else set_citationID (JStr (randomString host (trace s) 10)) citation)
  ∧ (∀ h, _driver (this s) = Some h →
          driver_accepts host h →
          Forall (λ item, resolves host (get "id" item)) (citationItems citation) →
          ∃ cluster order,
            trace out.2
            = (trace s ++ citationID_events citation
               ++ references_events host h citation)
              ++ [EvCall h (DPreviewCluster cluster order outputFormat)]).
Proof.
  assert (only_emits (λ ev, changes_document ev = false)
            (previewCitationCluster host citation citationsPre citationsPost
               outputFormat)) as Hframe.
  { unfold previewCitationCluster.
    apply only_emits_bind.
    - destruct (negb _); [|apply only_emits_ret].
      apply only_emits_bind; [by apply only_emits_randomString|].
      intros id. apply only_emits_ret.
    - intros c. apply only_emits_bind;
        [apply insertCitationReferences_only_registers|].
      intros cites. apply only_emits_bind; [by apply only_emits_call_driver|].
      intros v. apply only_emits_ret. }
  destruct (Hframe s) as [Hthis Htrace]. simpl.
  split; [done|]. split; [done|]. split.
  - intros result citation' Hout.
    by apply previewCitationCluster_citation in Hout.
  - intros h Hh Hacc Hres.
    destruct (previewCitationCluster_run host h citation citationsPre
                citationsPost outputFormat s Hh Hacc Hres) as [result ->].
    simpl. by eexists _, _.
Qed.

(** C3 as stated fails: previewing a citation without a [citationID] hands
    back a changed citation, and even for a citation that has one the preview
    registers the cited references with the handle. *)
Lemma previewCitationCluster_not_pure :
  ¬ preview_is_pure_query demo_host demo_citation [] [] (JStr "html") demo_state
  ∧ ¬ preview_is_pure_query demo_host demo_citation_named [] [] (JStr "html")
        demo_state.
Proof.
  split.
  - intros (_ & _ & Hcitation).
    specialize (Hcitation (JStr "(Doe 2020)")
                  (set_citationID (JStr "Zq3x8LmPw0") demo_citation) eq_refl).
    discriminate Hcitation.
  - intros (_ & (new & Htrace & Hnew) & _).
    vm_compute in Htrace. injection Htrace as <-.
    apply Forall_cons in Hnew as [_ Hnew].
    apply Forall_cons in Hnew as [Hnew _].
    discriminate Hnew.
Qed.

Lemma previewCitationCluster_frame_witness :
  set_citationID (JStr "Zq3x8LmPw0") demo_citation
  = (if truthy (citationID demo_citation) then demo_citation
     else set_citationID (JStr (randomString demo_host (trace demo_state) 10))
            demo_citation)
  ∧ ∃ cluster order,
      trace (previewCitationCluster demo_host demo_citation [] [] (JStr "html")
               demo_state).2
      = (trace demo_state ++ citationID_events demo_citation
         ++ references_events demo_host 0 demo_citation)
        ++ [EvCall 0 (DPreviewCluster cluster order (JStr "html"))].
Proof.
  pose proof (previewCitationCluster_frame demo_host demo_citation [] []
                (JStr "html") demo_state) as (_ & _ & Hcitation & Hregisters).
  split.
  - exact (Hcitation (JStr "(Doe 2020)")
             (set_citationID (JStr "Zq3x8LmPw0") demo_citation) eq_refl).
  - apply (Hregisters 0%nat).
    + reflexivity.
    + intros t c. destruct c; eexists; reflexivity.
    + repeat constructor; eexists; reflexivity.
Defined.

(** ** Output format *)

Lemma normalized_format_eqb (format : string) :
  (if String.eqb format "text" then "plain" else format) = normalized_format format.
Proof.
  unfold normalized_format. destruct (String.eqb_spec format "text"); by case_decide.
Qed.

Lemma setOutputFormat_same (host : Host) (format format' : string) (s : State) :
  normalized_format format' = normalized_format format →
  _format (this s) = normalized_format format →
  setOutputFormat host format' s = (Normal tt, s).
Proof.
  intros Hsame Hs. unfold setOutputFormat.
  rewrite normalized_format_eqb, Hsame. unfold bind at 1; simpl.
  by rewrite Hs, String.eqb_refl.
Qed.

Lemma setOutputFormat_changed (host : Host) (h : nat) (format : string)
    (s : State) :
  _driver (this s) = Some h →
  _format (this s) ≠ normalized_format format →
  setOutputFormat host format s
  = (match driver_call host (trace s) h
             (DSetOutputFormat (normalized_format format)) with
     | Normal _ => Normal tt
     | Throw e => Throw e
     end,
     {| this := set_format (normalized_format format) (this s);
        trace := trace s ++ [EvCall h (DSetOutputFormat (normalized_format format))] |}).
Proof.
  intros Hh Hne. unfold setOutputFormat.
  rewrite normalized_format_eqb. unfold bind at 1; simpl.
  destruct (String.eqb_spec (_format (this s)) (normalized_format format));
    simpl; [done|].
  unfold bind, call_driver; simpl. rewrite Hh.
  by destruct (driver_call host _ h _).
Qed.

(** C7: [setOutputFormat] compares the session's format with the requested
    one after reading "text" as "plain".  When they are equal nothing happens;
    otherwise the session's format becomes the normalized one and the live
    handle receives exactly one [setOutputFormat] call, and is neither
    released nor replaced.  After any call, a further call whose normalized
    format is the same does nothing. *)
Theorem setOutputFormat_switch (host : Host) (h : nat) (format : string)
    (s : State) :
  _driver (this s) = Some h →
  let out := setOutputFormat host format s in
  (_format (this s) = normalized_format format → out = (Normal tt, s))
  ∧ (_format (this s) ≠ normalized_format format →
       this out.2 = set_format (normalized_format format) (this s)
       ∧ _driver (this out.2) = Some h
       ∧ trace out.2
         = trace s ++ [EvCall h (DSetOutputFormat (normalized_format format))])
  ∧ (∀ format', normalized_format format' = normalized_format format →
       setOutputFormat host format' out.2 = (Normal tt, out.2)).
Proof.
  intros Hh out. subst out.
  destruct (decide (_format (this s) = normalized_format format)) as [Heq|Hne].
  - rewrite (setOutputFormat_same host format format s eq_refl Heq); simpl.
    split; [done|]. split; [done|].
    intros format' Hsame. by apply (setOutputFormat_same host format).
  - rewrite (setOutputFormat_changed host h format s Hh Hne); simpl.
    split; [done|]. split; [done|].
    intros format' Hsame. by apply (setOutputFormat_same host format).
Qed.

Lemma setOutputFormat_switch_witness :
  let out := setOutputFormat demo_host "text" demo_state in
  (_format (this demo_state) = normalized_format "text" →
     out = (Normal tt, demo_state))
  ∧ (_format (this demo_state) ≠ normalized_format "text" →
       this out.2 = set_format (normalized_format "text") (this demo_state)
       ∧ _driver (this out.2) = Some 0%nat
       ∧ trace out.2
         = trace demo_state ++ [EvCall 0 (DSetOutputFormat (normalized_format "text"))])
  ∧ (∀ format', normalized_format format' = normalized_format "text" →
       setOutputFormat demo_host format' out.2 = (Normal tt, out.2)).
Proof.
  apply (setOutputFormat_switch demo_host 0 "text" demo_state). reflexivity.
Defined.

(** ** Releasing the handle *)

(** C8, as the code has it: when releasing the handle raises [e],
    [free(ignoreErrors)] returns normally exactly when [ignoreErrors] is true
    and raises [e] otherwise.  In both cases every field of the session,
    the handle reference included, is as before: no failure is recorded, and
    the next operation is forwarded to the same handle. *)
Theorem free_release_failure (host : Host) (h : nat) (e : JsVal)
    (ignoreErrors : bool) (s : State) :
  _driver (this s) = Some h →
  driver_call host (trace s) h DFree = Throw e →
  let out := free host ignoreErrors s in
  out = (if ignoreErrors then Normal tt else Throw e,
         {| this := this s; trace := trace s ++ [EvCall h DFree] |})
  ∧ getBatchedUpdates host out.2
    = (driver_call host (trace out.2) h DBatchedUpdates,
       emit (EvCall h DBatchedUpdates) out.2).
Proof.
  intros Hh Hfree out. subst out.
  unfold free, try_catch, bind, call_driver. rewrite Hh, Hfree.
  destruct ignoreErrors; simpl;
    (split; [done|]); unfold getBatchedUpdates, call_driver; simpl; by rewrite Hh.
Qed.

Lemma free_release_failure_witness :
  let out := free leaky_host false demo_state in
  out = (Throw (JStr "null pointer passed to rust"),
         {| this := this demo_state; trace := trace demo_state ++ [EvCall 0 DFree] |})
  ∧ getBatchedUpdates leaky_host out.2
    = (driver_call leaky_host (trace out.2) 0 DBatchedUpdates,
       emit (EvCall 0 DBatchedUpdates) out.2).
Proof.
  apply (free_release_failure leaky_host 0 (JStr "null pointer passed to rust")
           false demo_state); reflexivity.
Defined.

(** C8 as stated fails: no function of the session's fields can serve as the
    failed-state flag, because a [free(false)] that raises leaves the session
    exactly as the constructor made it. *)
Lemma free_records_no_failure :
  ¬ ∃ failed : Engine → bool, records_release_failure failed.
Proof.
  intros (failed & Hnew & Hfree).
  pose (e0 := {| _styleXML := JStr "<style/>"; _overrideLocale := false;
                 locale := JStr "en-US"; _format := "html"; _driver := Some 0%nat;
                 styleID := JUndefined; hasBibliography := JUndefined;
                 opt_sort_citations := true |}).
  specialize (Hnew leaky_host ∅ (JStr "<style/>") (JStr "en-US") "html" false []
                e0 _ eq_refl).
  specialize (Hfree leaky_host {| this := e0; trace := [] |}
                (JStr "null pointer passed to rust") eq_refl).
  simpl in Hfree. congruence.
Qed.

(** ** Uncited items *)

Lemma updateUncitedItems_loop_run (host : Host) (h : nat)
    (Hacc : driver_accepts host h) (itemIDs : list JsVal) :
  ∀ (referenceIDs : list JsVal) (s : State),
    _driver (this s) = Some h →
    Forall (resolves host) itemIDs →
    updateUncitedItems_loop host itemIDs referenceIDs s
    = (Normal (referenceIDs ++ uncited_ids host itemIDs),
       {| this := this s;
          trace := trace s ++ flat_map (register_events host h) itemIDs |}).
Proof.
  induction itemIDs as [|id itemIDs IH]; intros referenceIDs s Hh Hres; simpl.
  - unfold ret. rewrite !app_nil_r. by destruct s.
  - apply Forall_cons in Hres as [[r Hr] Hres].
    assert (reference_of host id = <["id" := JStr (to_string (get "id" r))]> r)
      as Href by (unfold reference_of; by rewrite Hr).
    unfold bind at 1. unfold retrieveItem at 1. rewrite Hr.
    unfold bind at 1.
    destruct (call_driver_run host h Hacc
                (DInsertReference (<["id" := JStr (to_string (get "id" r))]> r))
                (emit (EvRetrieveItem id) s) Hh)
      as (v & -> & _).
    rewrite IH by done. simpl. rewrite Href.
    by rewrite <- !app_assoc.
Qed.

Lemma updateUncitedItems_run (host : Host) (h : nat)
    (Hacc : driver_accepts host h) (itemIDs : list JsVal) (s : State) :
  _driver (this s) = Some h →
  Forall (resolves host) itemIDs →
  updateUncitedItems host itemIDs s
  = (Normal tt,
     {| this := this s;
        trace := trace s ++ updateUncitedItems_events host h itemIDs |}).
Proof.
  intros Hh Hres. unfold updateUncitedItems.
  unfold bind at 1. rewrite (updateUncitedItems_loop_run host h Hacc) by done.
  unfold bind at 1.
  match goal with
  | |- context [call_driver host ?c ?s0] =>
      destruct (call_driver_run host h Hacc c s0 Hh) as (v & -> & _)
  end.
  unfold ret, emit, updateUncitedItems_events; simpl.
  by rewrite <- app_assoc.
Qed.

Lemma uncited_ids_normalized (host : Host) (itemIDs : list JsVal) :
  Forall (resolves host) itemIDs →
  Forall2
    (λ id referenceID,
       ∃ r, sys_retrieveItem host id = Normal r
            ∧ referenceID = JStr (to_string (get "id" r)))
    itemIDs (uncited_ids host itemIDs).
Proof.
  intros Hres. apply Forall2_map_r_intro.
  eapply Forall_impl; [exact Hres|]. intros id [r Hr]. exists r.
  split; [done|]. unfold reference_of. rewrite Hr. apply get_insert_eq.
Qed.

(** C9: [updateUncitedItems] resolves each id through the item provider and
    registers the resolved reference, its identifier turned into a string,
    with the handle, one item after the other; then it issues one
    [includeUncited] call whose [Specific] list is exactly the string
    identifiers of this call's items, in order.  Whatever was configured
    before plays no part: after a call for [earlier] items, the call for
    [itemIDs] ends with the same [includeUncited] request.  [updateItems]
    runs the same computation. *)
Theorem updateUncitedItems_registers (host : Host) (h : nat)
    (itemIDs : list JsVal) (s : State) :
  _driver (this s) = Some h →
  driver_accepts host h →
  Forall (resolves host) itemIDs →
  ∃ referenceIDs,
    updateUncitedItems host itemIDs s
    = (Normal tt,
       {| this := this s;
          trace :=
            trace s ++ flat_map (register_events host h) itemIDs
            ++ [EvCall h (DIncludeUncited (<["Specific" := JArr referenceIDs]> ∅))] |})
    ∧ Forall2
        (λ id referenceID,
           ∃ r, sys_retrieveItem host id = Normal r
                ∧ referenceID = JStr (to_string (get "id" r)))
        itemIDs referenceIDs
    ∧ (∀ earlier, Forall (resolves host) earlier →
         last (trace (updateUncitedItems host itemIDs
                        (updateUncitedItems host earlier s).2).2)
         = Some (EvCall h (DIncludeUncited (<["Specific" := JArr referenceIDs]> ∅))))
    ∧ updateItems host itemIDs s = updateUncitedItems host itemIDs s.
Proof.
  intros Hh Hacc Hres. exists (uncited_ids host itemIDs).
  split; [by apply updateUncitedItems_run|].
  split; [by apply uncited_ids_normalized|].
  split; [|done].
  intros earlier Hearlier.
  rewrite (updateUncitedItems_run host h Hacc earlier s Hh Hearlier); simpl.
  rewrite (updateUncitedItems_run host h Hacc itemIDs) by done; simpl.
  unfold updateUncitedItems_events.
  by rewrite (app_assoc _ (flat_map _ itemIDs) [_]), last_snoc.
Qed.

Lemma updateUncitedItems_registers_witness :
  ∃ referenceIDs,
    updateUncitedItems demo_host [JNum 9; JStr "K4"] demo_state
    = (Normal tt,
       {| this := this demo_state;
          trace :=
            trace demo_state
            ++ flat_map (register_events demo_host 0) [JNum 9; JStr "K4"]
            ++ [EvCall 0 (DIncludeUncited (<["Specific" := JArr referenceIDs]> ∅))] |})
    ∧ Forall2
        (λ id referenceID,
           ∃ r, sys_retrieveItem demo_host id = Normal r
                ∧ referenceID = JStr (to_string (get "id" r)))
        [JNum 9; JStr "K4"] referenceIDs
    ∧ (∀ earlier, Forall (resolves demo_host) earlier →
         last (trace (updateUncitedItems demo_host [JNum 9; JStr "K4"]
                        (updateUncitedItems demo_host earlier demo_state).2).2)
         = Some (EvCall 0 (DIncludeUncited (<["Specific" := JArr referenceIDs]> ∅))))
    ∧ updateItems demo_host [JNum 9; JStr "K4"] demo_state
      = updateUncitedItems demo_host [JNum 9; JStr "K4"] demo_state.
Proof.
  apply (updateUncitedItems_registers demo_host 0 [JNum 9; JStr "K4"] demo_state).
  - reflexivity.
  - intros t c. destruct c; eexists; reflexivity.
  - repeat constructor; eexists; reflexivity.
Defined.

Example updateUncitedItems_demo :
  uncited_ids demo_host [JNum 9; JStr "K4"] = [JStr "9"; JStr "K4"].
Proof. reflexivity. Qed.

(** ** Inserting clusters *)

Lemma insertCluster_run (host : Host) (h : nat) (Hacc : driver_accepts host h)
    (citation : Citation) (s : State) :
  _driver (this s) = Some h →
  Forall (λ item, resolves host (get "id" item)) (citationItems citation) →
  insertCluster host citation s
  = (Normal (cluster_of host citation),
     {| this := this s;
        trace := trace s ++ insertCluster_events host h citation |}).
Proof.
  intros Hh Hres. unfold insertCluster.
  unfold bind at 1. rewrite (insertCitationReferences_run host h Hacc) by done.
  unfold bind at 1.
  match goal with
  | |- context [call_driver host ?c ?s0] =>
      destruct (call_driver_run host h Hacc c s0 Hh) as (v & -> & _)
  end.
  unfold ret, emit, insertCluster_events, references_events; simpl.
  by rewrite <- app_assoc.
Qed.

Lemma references_events_quiet (host : Host) (h : nat) (citation : Citation) :
  Forall (λ ev, orders_or_names ev = false) (references_events host h citation).
Proof.
  unfold references_events.
  induction (citationItems citation); simpl; by repeat constructor.
Qed.

(** C10: [appendCitationCluster] does to the session and the handle exactly
    what [insertCluster] does (it registers the reference of each cited item
    and inserts the cluster under the citation's [citationID], whatever that
    is) and then returns what the handle's [builtCluster] answers for that
    [citationID].  None of its effects sets the cluster order or draws a
    random [citationID]. *)
Theorem appendCitationCluster_inserts (host : Host) (h : nat)
    (citation : Citation) (s : State) :
  _driver (this s) = Some h →
  driver_accepts host h →
  Forall (λ item, resolves host (get "id" item)) (citationItems citation) →
  let inserted := insertCluster host citation s in
  let out := appendCitationCluster host citation s in
  inserted = (Normal (cluster_of host citation),
              {| this := this s;
                 trace := trace s ++ insertCluster_events host h citation |})
  ∧ cluster_of host citation !! "id" = Some (citationID citation)
  ∧ out.1 = driver_call host (trace inserted.2) h
              (DBuiltCluster (citationID citation))
  ∧ this out.2 = this s
  ∧ trace out.2
    = trace inserted.2 ++ [EvCall h (DBuiltCluster (citationID citation))]
  ∧ Forall (λ ev, orders_or_names ev = false)
      (insertCluster_events host h citation
       ++ [EvCall h (DBuiltCluster (citationID citation))]).
Proof.
  intros Hh Hacc Hres inserted out. subst inserted out.
  unfold appendCitationCluster, bind.
  rewrite (insertCluster_run host h Hacc citation s Hh Hres).
  unfold call_driver; simpl. rewrite Hh; simpl.
  split; [done|].
  split; [unfold cluster_of; by rewrite lookup_insert_ne, lookup_insert_eq|].
  split; [done|]. split; [done|]. split; [done|].
  unfold insertCluster_events. rewrite <- app_assoc.
  apply Forall_app. split; [apply references_events_quiet|].
  by repeat constructor.
Qed.

Lemma appendCitationCluster_inserts_witness :
  let inserted := insertCluster demo_host demo_citation demo_state in
  let out := appendCitationCluster demo_host demo_citation demo_state in
  inserted = (Normal (cluster_of demo_host demo_citation),
              {| this := this demo_state;
                 trace := trace demo_state
                          ++ insertCluster_events demo_host 0 demo_citation |})
  ∧ cluster_of demo_host demo_citation !! "id" = Some (citationID demo_citation)
  ∧ out.1 = driver_call demo_host (trace inserted.2) 0
              (DBuiltCluster (citationID demo_citation))
  ∧ this out.2 = this demo_state
  ∧ trace out.2
    = trace inserted.2 ++ [EvCall 0 (DBuiltCluster (citationID demo_citation))]
  ∧ Forall (λ ev, orders_or_names ev = false)
      (insertCluster_events demo_host 0 demo_citation
       ++ [EvCall 0 (DBuiltCluster (citationID demo_citation))]).
Proof.
  apply (appendCitationCluster_inserts demo_host 0 demo_citation demo_state).
  - reflexivity.
  - intros t c. destruct c; eexists; reflexivity.
  - repeat constructor; eexists; reflexivity.
Defined.

(** ** Rebuilding the processor state *)

Lemma handles_created_snoc_call (t : list Event) (h : nat) (c : DriverCall) :
  handles_created (t ++ [EvCall h c]) = handles_created t.
Proof.
  unfold handles_created. rewrite List.filter_app, length_app. simpl. lia.
Qed.

Lemma resetDriver_run (host : Host) (h : nat) (s : State) :
  engine_cooperates host →
  _driver (this s) = Some h →
  _resetDriver host s
  = (Normal tt,
     {| this := set_driver (handles_created (trace s)) (this s);
        trace := trace s ++
          [EvCall h DFree;
           EvNew (handles_created (trace s))
             (reset_options (this s) (_format (this s)))] |}).
Proof.
  intros [Hacc Hnew] Hh. unfold _resetDriver.
  unfold bind at 1; simpl. rewrite Hh.
  unfold bind at 1. unfold bind at 1.
  destruct (call_driver_run host h (Hacc h) DFree s Hh) as (v & -> & _).
  unfold ret at 1. unfold bind at 1. unfold new_Driver. rewrite Hnew.
  unfold modify_this, emit; simpl.
  rewrite handles_created_snoc_call. by rewrite <- app_assoc.
Qed.

Lemma insertCluster_each_run (host : Host) (h : nat)
    (Hacc : driver_accepts host h) (citations : list Citation) :
  ∀ s : State,
    _driver (this s) = Some h →
    Forall (λ citation,
              Forall (λ item, resolves host (get "id" item))
                (citationItems citation)) citations →
    insertCluster_each host citations s
    = (Normal tt,
       {| this := this s;
          trace := trace s ++ flat_map (insertCluster_events host h) citations |}).
Proof.
  induction citations as [|citation citations IH]; intros s Hh Hres; simpl.
  - unfold ret. rewrite app_nil_r. by destruct s.
  - apply Forall_cons in Hres as [Hcitation Hres].
    unfold bind. rewrite (insertCluster_run host h Hacc) by done.
    rewrite IH by done. simpl. by rewrite <- app_assoc.
Qed.

Lemma setClusterOrder_run (host : Host) (h : nat) (Hacc : driver_accepts host h)
    (citations : list (JsVal * JsVal)) (s : State) :
  _driver (this s) = Some h →
  setClusterOrder host citations s
  = (Normal tt,
     {| this := this s;
        trace := trace s ++
          [EvCall h (DSetClusterOrder (map order_entry citations))] |}).
Proof.
  intros Hh. unfold setClusterOrder, bind.
  destruct (call_driver_run host h Hacc
              (DSetClusterOrder (_getClusterOrder citations)) s Hh)
    as (v & -> & _).
  unfold ret, emit; simpl. rewrite getClusterOrder_map.
  by rewrite (map_ext _ _ cluster_order_entry_normalized).
Qed.

(** C4: on a session that holds a handle, with an engine that does not raise
    and items that all resolve, [rebuildProcessorState] performs exactly
    these effects, in this order: it releases the old handle and creates a
    new one with the session's style and locale settings and the new format;
    it inserts every citation as a cluster, in list order, each after the
    references of its items; it sets the cluster order to the normalized
    [(citationID, noteIndex)] entries of the same list, in the same order;
    and it registers the uncited items as [updateUncitedItems] does.  The
    session ends up with the new format and the new handle. *)
Theorem rebuildProcessorState_effects (host : Host) (h : nat)
    (citations : list Citation) (format : string) (uncited : list JsVal)
    (s : State) :
  _driver (this s) = Some h →
  engine_cooperates host →
  Forall (λ citation,
            Forall (λ item, resolves host (get "id" item))
              (citationItems citation)) citations →
  Forall (resolves host) uncited →
  let h' := handles_created (trace s) in
  rebuildProcessorState host citations format uncited s
  = (Normal tt,
     {| this := set_driver h' (set_format format (this s));
        trace := trace s ++
          rebuild_events host (this s) h h' citations format uncited |})
  ∧ (∀ t,
       updateUncitedItems host uncited
         {| this := set_driver h' (set_format format (this s)); trace := t |}
       = (Normal tt,
          {| this := set_driver h' (set_format format (this s));
             trace := t ++ updateUncitedItems_events host h' uncited |})).
Proof.
  intros Hh Hcoop Hres Huncited h'. subst h'.
  pose proof (proj1 Hcoop (handles_created (trace s))) as Hacc'.
  split.
  - unfold rebuildProcessorState.
    unfold bind at 1; simpl. unfold bind at 1.
    rewrite (resetDriver_run host h) by done; simpl.
    unfold bind at 1.
    rewrite (insertCluster_each_run host _ Hacc') by done; simpl.
    unfold bind at 1.
    rewrite (setClusterOrder_run host _ Hacc') by done; simpl.
    rewrite (updateUncitedItems_run host _ Hacc') by done; simpl.
    unfold rebuild_events, reset_options; simpl.
    rewrite map_map; simpl.
    by rewrite <- !app_assoc.
  - intros t. by rewrite (updateUncitedItems_run host _ Hacc').
Qed.

Lemma rebuildProcessorState_effects_witness :
  let h' := handles_created (trace demo_state) in
  rebuildProcessorState demo_host [demo_citation_named; demo_citation] "rtf"
    [JNum 9] demo_state
  = (Normal tt,
     {| this := set_driver h' (set_format "rtf" (this demo_state));
        trace := trace demo_state ++
          rebuild_events demo_host (this demo_state) 0 h'
            [demo_citation_named; demo_citation] "rtf" [JNum 9] |})
  ∧ (∀ t,
       updateUncitedItems demo_host [JNum 9]
         {| this := set_driver h' (set_format "rtf" (this demo_state)); trace := t |}
       = (Normal tt,
          {| this := set_driver h' (set_format "rtf" (this demo_state));
             trace := t ++ updateUncitedItems_events demo_host h' [JNum 9] |})).
Proof.
  apply (rebuildProcessorState_effects demo_host 0
           [demo_citation_named; demo_citation] "rtf" [JNum 9] demo_state).
  - reflexivity.
  - split; [intros h t c; destruct c; eexists; reflexivity | reflexivity].
  - repeat constructor; eexists; reflexivity.
  - repeat constructor; eexists; reflexivity.
Defined.

(** ** The bibliography *)

Lemma wrap_entries (format : string) (entries : list BibEntry) :
  (if String.eqb format "html" then
     map (λ entry,
            JStr ("<div class=" +:+ dquote +:+ "csl-entry" +:+ dquote +:+ ">"
                  +:+ to_string (entry_value entry) +:+ "</div>")) entries
   else if String.eqb format "plain" then
     map (λ entry, JStr (to_string (entry_value entry) +:+ newline)) entries
   else map (λ entry, entry_value entry) entries)
  = map (λ entry, wrap_entry format (entry_value entry)) entries.
Proof.
  destruct (String.eqb_spec format "html") as [->|Hhtml]; [done|].
  destruct (String.eqb_spec format "plain") as [->|Hplain]; [done|].
  apply map_ext. intros entry. unfold wrap_entry.
  by rewrite !decide_False by done.
Qed.

Lemma makeBibliography_run (host : Host) (h : nat) (meta : gmap string JsVal)
    (entries : list BibEntry) (s : State) :
  _driver (this s) = Some h →
  driver_bibliographyMeta host (trace s) h = Normal meta →
  driver_makeBibliography host (trace s ++ [EvCall h DBibliographyMeta]) h
  = Normal entries →
  let translated :=
    <["second-field-align" := get "secondFieldAlign" meta]>
      (Object_assign meta
         (<["maxoffset" := get "maxOffset" meta]>
         (<["linespacing" := get "lineSpacing" meta]>
         (<["entryspacing" := get "entrySpacing" meta]>
         (<["hangingindent" := get "hangingIndent" meta]>
         (<["bibstart" := js_and (get "formatMeta" meta)
                            (get_prop "markupPre" (get "formatMeta" meta))]>
         (<["bibend" := js_and (get "formatMeta" meta)
                          (get_prop "markupPost" (get "formatMeta" meta))]>
          ∅))))))) in
  makeBibliography host s
  = (Normal
       (Object_assign
          (<["entry_ids" := JArr (map (λ entry, JArr [entry_id entry]) entries)]> ∅)
          translated,
        map (λ entry, wrap_entry (_format (this s)) (entry_value entry)) entries),
     {| this := this s;
        trace := trace s ++
          [EvCall h DBibliographyMeta; EvCall h DMakeBibliography] |}).
Proof.
  intros Hh Hmeta Hentries translated. subst translated.
  unfold makeBibliography.
  unfold bind at 1. unfold call_bibliographyMeta. rewrite Hh, Hmeta.
  unfold bind at 1. unfold call_makeBibliography; simpl. rewrite Hh, Hentries.
  unfold bind, get_this, ret, emit; simpl.
  rewrite <- app_assoc; simpl.
  assert (get "secondFieldAlign"
            (Object_assign meta
               (<["maxoffset" := get "maxOffset" meta]>
               (<["linespacing" := get "lineSpacing" meta]>
               (<["entryspacing" := get "entrySpacing" meta]>
               (<["hangingindent" := get "hangingIndent" meta]>
               (<["bibstart" := js_and (get "formatMeta" meta)
                                  (get_prop "markupPre" (get "formatMeta" meta))]>
               (<["bibend" := js_and (get "formatMeta" meta)
                                (get_prop "markupPost" (get "formatMeta" meta))]>
                ∅)))))))
          = get "secondFieldAlign" meta) as ->.
  { unfold Object_assign, get. rewrite lookup_union_r; [done|].
    by simplify_map_eq. }
  by rewrite wrap_entries.
Qed.

Lemma lookup_Object_assign (target source : gmap string JsVal) (key : string) :
  Object_assign target source !! key
  = match source !! key with
    | Some v => Some v
    | None => target !! key
    end.
Proof.
  unfold Object_assign. rewrite lookup_union.
  by destruct (source !! key), (target !! key).
Qed.

(** C5: the metadata that [makeBibliography] returns has, for an engine
    metadata record [meta], [maxoffset], [linespacing], [entryspacing],
    [hangingindent] and ["second-field-align"] equal to the record's
    [maxOffset], [lineSpacing], [entrySpacing], [hangingIndent] and
    [secondFieldAlign]; [bibstart] and [bibend] equal to [markupPre] and
    [markupPost] of its [formatMeta], and undefined when [formatMeta] is
    absent; and every field of [meta] under a name other than these seven
    added ones is still there with its value. *)
Theorem makeBibliography_meta (host : Host) (h : nat) (meta : gmap string JsVal)
    (entries : list BibEntry) (s : State) :
  _driver (this s) = Some h →
  driver_bibliographyMeta host (trace s) h = Normal meta →
  driver_makeBibliography host (trace s ++ [EvCall h DBibliographyMeta]) h
  = Normal entries →
  ∃ result strings s',
    makeBibliography host s = (Normal (result, strings), s')
    ∧ get "maxoffset" result = get "maxOffset" meta
    ∧ get "linespacing" result = get "lineSpacing" meta
    ∧ get "entryspacing" result = get "entrySpacing" meta
    ∧ get "hangingindent" result = get "hangingIndent" meta
    ∧ get "second-field-align" result = get "secondFieldAlign" meta
    ∧ (∀ formatMeta, meta !! "formatMeta" = Some (JObj formatMeta) →
         get "bibstart" result = get "markupPre" formatMeta
         ∧ get "bibend" result = get "markupPost" formatMeta)
    ∧ (meta !! "formatMeta" = None →
         get "bibstart" result = JUndefined ∧ get "bibend" result = JUndefined)
    ∧ (∀ key v, meta !! key = Some v → key ∉ translated_names →
         result !! key = Some v).
Proof.
  intros Hh Hmeta Hentries.
  rewrite (makeBibliography_run host h meta entries s Hh Hmeta Hentries).
  eexists _, _, _. split; [reflexivity|].
  assert (∀ key v,
            (<["second-field-align" := get "secondFieldAlign" meta]>
               (Object_assign meta
                  (<["maxoffset" := get "maxOffset" meta]>
                  (<["linespacing" := get "lineSpacing" meta]>
                  (<["entryspacing" := get "entrySpacing" meta]>
                  (<["hangingindent" := get "hangingIndent" meta]>
                  (<["bibstart" := js_and (get "formatMeta" meta)
                                     (get_prop "markupPre" (get "formatMeta" meta))]>
                  (<["bibend" := js_and (get "formatMeta" meta)
                                   (get_prop "markupPost" (get "formatMeta" meta))]>
                   ∅)))))))) !! key = Some v →
            ∀ ids : gmap string JsVal,
              Object_assign ids
                (<["second-field-align" := get "secondFieldAlign" meta]>
                   (Object_assign meta
                      (<["maxoffset" := get "maxOffset" meta]>
                      (<["linespacing" := get "lineSpacing" meta]>
                      (<["entryspacing" := get "entrySpacing" meta]>
                      (<["hangingindent" := get "hangingIndent" meta]>
                      (<["bibstart" := js_and (get "formatMeta" meta)
                                         (get_prop "markupPre" (get "formatMeta" meta))]>
                      (<["bibend" := js_and (get "formatMeta" meta)
                                       (get_prop "markupPost" (get "formatMeta" meta))]>
                       ∅)))))))) !! key = Some v) as Hfinal.
  { intros key v Hv ids. by rewrite lookup_Object_assign, Hv. }
  assert (∀ key v (source : gmap string JsVal),
            key ≠ "second-field-align" → source !! key = Some v →
            (<["second-field-align" := get "secondFieldAlign" meta]>
               (Object_assign meta source)) !! key = Some v) as Hadded.
  { intros key v source Hne Hv.
    by rewrite lookup_insert_ne, lookup_Object_assign, Hv. }
  assert (∀ key v (source : gmap string JsVal) (ids : gmap string JsVal),
            key ≠ "second-field-align" → source !! key = Some v →
            get key
              (Object_assign ids
                 (<["second-field-align" := get "secondFieldAlign" meta]>
                    (Object_assign meta source))) = v) as Hget.
  { intros key v source ids Hne Hv. unfold get at 1.
    by rewrite lookup_Object_assign, (Hadded key v source Hne Hv). }
  split; [by apply Hget|]. split; [by apply Hget|].
  split; [by apply Hget|]. split; [by apply Hget|].
  split.
  { unfold get at 1. by erewrite Hfinal; [|by apply lookup_insert_eq]. }
  split.
  { intros formatMeta HformatMeta.
    split; (erewrite Hget; [|done|done]); unfold get at 1 2;
      by rewrite HformatMeta. }
  split.
  { intros HformatMeta.
    split; (erewrite Hget; [|done|done]); unfold get; by rewrite HformatMeta. }
  intros key v Hv Hkey. apply Hfinal.
  unfold translated_names in Hkey.
  repeat (apply not_elem_of_cons in Hkey as [? Hkey]).
  rewrite lookup_insert_ne by done. rewrite lookup_Object_assign.
  by rewrite !lookup_insert_ne, lookup_empty by done.
Qed.

Lemma makeBibliography_meta_witness :
  ∃ result strings s',
    makeBibliography demo_host demo_state = (Normal (result, strings), s')
    ∧ get "maxoffset" result = get "maxOffset" demo_meta
    ∧ get "linespacing" result = get "lineSpacing" demo_meta
    ∧ get "entryspacing" result = get "entrySpacing" demo_meta
    ∧ get "hangingindent" result = get "hangingIndent" demo_meta
    ∧ get "second-field-align" result = get "secondFieldAlign" demo_meta
    ∧ (∀ formatMeta, demo_meta !! "formatMeta" = Some (JObj formatMeta) →
         get "bibstart" result = get "markupPre" formatMeta
         ∧ get "bibend" result = get "markupPost" formatMeta)
    ∧ (demo_meta !! "formatMeta" = None →
         get "bibstart" result = JUndefined ∧ get "bibend" result = JUndefined)
    ∧ (∀ key v, demo_meta !! key = Some v → key ∉ translated_names →
         result !! key = Some v).
Proof.
  apply (makeBibliography_meta demo_host 0 demo_meta demo_entries demo_state);
    reflexivity.
Defined.

(** The example of the specification: the translated names next to the
    engine's own. *)
Example makeBibliography_meta_demo :
  let result :=
    match (makeBibliography demo_host demo_state).1 with
    | Normal (result, _) => result
    | Throw _ => ∅
    end in
  get "maxoffset" result = JNum 2
  ∧ get "linespacing" result = JNum 1
  ∧ get "entryspacing" result = JNum 0
  ∧ get "hangingindent" result = JBool true
  ∧ get "second-field-align" result = JBool false
  ∧ get "bibstart" result = JStr "<div>"
  ∧ get "bibend" result = JStr "</div>"
  ∧ get "maxOffset" result = JNum 2
  ∧ get "secondFieldAlign" result = JBool false.
Proof. by vm_compute. Qed.

(** C6: for the entries that the engine returns, [makeBibliography] returns
    one string per entry, in the engine's order, each wrapped by the
    session's output format: inside [<div class="csl-entry">] and [</div>]
    for "html", followed by a newline for "plain", unchanged for any other
    format.  The metadata carries [entry_ids], whose k-th element is the
    one-element array of the k-th entry's id; the engine's metadata record
    has no field of that name of its own. *)
Theorem makeBibliography_entries (host : Host) (h : nat)
    (meta : gmap string JsVal) (entries : list BibEntry) (s : State) :
  _driver (this s) = Some h →
  driver_bibliographyMeta host (trace s) h = Normal meta →
  driver_makeBibliography host (trace s ++ [EvCall h DBibliographyMeta]) h
  = Normal entries →
  meta !! "entry_ids" = None →
  ∃ result strings entry_ids s',
    makeBibliography host s = (Normal (result, strings), s')
    ∧ length strings = length entries
    ∧ (∀ k entry, entries !! k = Some entry →
         strings !! k = Some (wrap_entry (_format (this s)) (entry_value entry)))
    ∧ result !! "entry_ids" = Some (JArr entry_ids)
    ∧ length entry_ids = length entries
    ∧ (∀ k entry, entries !! k = Some entry →
         entry_ids !! k = Some (JArr [entry_id entry])).
Proof.
  intros Hh Hmeta Hentries Hids.
  rewrite (makeBibliography_run host h meta entries s Hh Hmeta Hentries).
  eexists _, _, (map (λ entry, JArr [entry_id entry]) entries), _.
  split; [reflexivity|].
  split; [by rewrite length_map|].
  split; [intros k entry Hk; by rewrite list_lookup_fmap, Hk|].
  split.
  { rewrite lookup_Object_assign, lookup_insert_ne by done.
    rewrite lookup_Object_assign, Hids.
    by rewrite !lookup_insert_ne, lookup_empty, lookup_insert_eq by done. }
  split; [by rewrite length_map|].
  intros k entry Hk. by rewrite list_lookup_fmap, Hk.
Qed.

Lemma makeBibliography_entries_witness :
  ∃ result strings entry_ids s',
    makeBibliography demo_host demo_state = (Normal (result, strings), s')
    ∧ length strings = length demo_entries
    ∧ (∀ k entry, demo_entries !! k = Some entry →
         strings !! k
         = Some (wrap_entry (_format (this demo_state)) (entry_value entry)))
    ∧ result !! "entry_ids" = Some (JArr entry_ids)
    ∧ length entry_ids = length demo_entries
    ∧ (∀ k entry, demo_entries !! k = Some entry →
         entry_ids !! k = Some (JArr [entry_id entry])).
Proof.
  apply (makeBibliography_entries demo_host 0 demo_meta demo_entries demo_state);
    reflexivity.
Defined.

(** The examples of the specification for one entry [{id: "a", value: "X"}]
    and for the ids "a" and "b". *)
Example wrap_entry_demo :
  wrap_entry "html" (JStr "X")
  = JStr ("<div class=" +:+ dquote +:+ "csl-entry" +:+ dquote +:+ ">X</div>")
  ∧ wrap_entry "plain" (JStr "X") = JStr ("X" +:+ newline)
  ∧ wrap_entry "rtf" (JStr "X") = JStr "X"
  ∧ map (λ entry, JArr [entry_id entry]) demo_entries
    = [JArr [JStr "a"]; JArr [JStr "b"]].
Proof. by vm_compute. Qed.

(** * Further properties of the bridge *)

(** ** The session and its handle *)

Section Confinement.

Context (h : nat).

Lemma confined_ret {A} (a : A) : confined h (ret a).
Proof. intros s _. split; [done|]. exists []. by rewrite app_nil_r. Qed.

Lemma confined_throw {A} (e : JsVal) : confined h (@throw A e).
Proof. intros s _. split; [done|]. exists []. by rewrite app_nil_r. Qed.

Lemma confined_bind {A B} (m : M A) (f : A → M B) :
  confined h m → (∀ a, confined h (f a)) → confined h (bind m f).
Proof.
  intros Hm Hf s Hh. unfold bind.
  destruct (Hm s Hh) as (Hthis & new & Htrace & Hnew).
  destruct (m s) as [[a|e] s1]; simpl in *.
  - assert (_driver (this s1) = Some h) as Hh1 by congruence.
    destruct (Hf a s1 Hh1) as (Hthis' & new' & Htrace' & Hnew').
    split; [congruence|]. exists (new ++ new').
    rewrite Htrace', Htrace, app_assoc. split; [done|]. by apply Forall_app.
  - split; [done|]. by exists new.
Qed.

Lemma confined_try_catch {A} (m : M A) (handler : JsVal → M A) :
  confined h m → (∀ e, confined h (handler e)) → confined h (try_catch m handler).
Proof.
  intros Hm Hhandler s Hh. unfold try_catch.
  destruct (Hm s Hh) as (Hthis & new & Htrace & Hnew).
  destruct (m s) as [[a|e] s1]; simpl in *.
  - split; [done|]. by exists new.
  - assert (_driver (this s1) = Some h) as Hh1 by congruence.
    destruct (Hhandler e s1 Hh1) as (Hthis' & new' & Htrace' & Hnew').
    split; [congruence|]. exists (new ++ new').
    rewrite Htrace', Htrace, app_assoc. split; [done|]. by apply Forall_app.
Qed.

Lemma confined_get_this : confined h get_this.
Proof. intros s _. split; [done|]. exists []. by rewrite app_nil_r. Qed.

Lemma confined_call_driver (host : Host) (c : DriverCall) :
  confined h (call_driver host c).
Proof.
  intros s Hh. unfold call_driver. rewrite Hh; simpl.
  split; [done|]. exists [EvCall h c]. split; [done|]. by repeat constructor.
Qed.

Lemma confined_call_bibliographyMeta (host : Host) :
  confined h (call_bibliographyMeta host).
Proof.
  intros s Hh. unfold call_bibliographyMeta. rewrite Hh; simpl.
  split; [done|]. exists [EvCall h DBibliographyMeta].
  split; [done|]. by repeat constructor.
Qed.

Lemma confined_call_makeBibliography (host : Host) :
  confined h (call_makeBibliography host).
Proof.
  intros s Hh. unfold call_makeBibliography. rewrite Hh; simpl.
  split; [done|]. exists [EvCall h DMakeBibliography].
  split; [done|]. by repeat constructor.
Qed.

Lemma confined_retrieveItem (host : Host) (id : JsVal) :
  confined h (retrieveItem host id).
Proof.
  intros s _. split; [done|]. exists [EvRetrieveItem id].
  split; [done|]. by repeat constructor.
Qed.

Lemma confined_randomString (host : Host) (len : nat) :
  confined h (Utilities_randomString host len).
Proof.
  intros s _. split; [done|]. exists [EvRandomString len].
  split; [done|]. by repeat constructor.
Qed.

Lemma confined_insertCitationReferences (host : Host) (citation : Citation) :
  confined h (_insertCitationReferences host citation).
Proof.
  unfold _insertCitationReferences. generalize (@nil JsVal).
  induction (citationItems citation) as [|item items IH]; intros cites; simpl.
  - apply confined_ret.
  - apply confined_bind; [apply confined_retrieveItem|]. intros r.
    apply confined_bind; [apply confined_call_driver|]. intros _.
    apply IH.
Qed.

Lemma confined_insertCluster (host : Host) (citation : Citation) :
  confined h (insertCluster host citation).
Proof.
  unfold insertCluster.
  apply confined_bind; [apply confined_insertCitationReferences|]. intros cites.
  apply confined_bind; [apply confined_call_driver|]. intros _.
  apply confined_ret.
Qed.

Lemma confined_updateUncitedItems (host : Host) (itemIDs : list JsVal) :
  confined h (updateUncitedItems host itemIDs).
Proof.
  unfold updateUncitedItems. apply confined_bind.
  - generalize (@nil JsVal).
    induction itemIDs as [|id itemIDs IH]; intros referenceIDs; simpl.
    + apply confined_ret.
    + apply confined_bind; [apply confined_retrieveItem|]. intros r.
      apply confined_bind; [apply confined_call_driver|]. intros _.
      apply IH.
  - intros referenceIDs.
    apply confined_bind; [apply confined_call_driver|]. intros _.
    apply confined_ret.
Qed.

End Confinement.

Lemma confined_free (host : Host) (h : nat) (ignoreErrors : bool) :
  confined h (free host ignoreErrors).
Proof.
  unfold free. apply confined_try_catch.
  - apply confined_bind; [apply confined_call_driver|]. intros _.
    apply confined_ret.
  - intros e. destruct ignoreErrors; [apply confined_ret|apply confined_throw].
Qed.

Lemma confined_previewCitationCluster (host : Host) (h : nat)
    (citation : Citation) (citationsPre citationsPost : list (JsVal * JsVal))
    (outputFormat : JsVal) :
  confined h (previewCitationCluster host citation citationsPre citationsPost
                outputFormat).
Proof.
  unfold previewCitationCluster. apply confined_bind.
  - destruct (negb _); [|apply confined_ret].
    apply confined_bind; [apply confined_randomString|].
    intros id. apply confined_ret.
  - intros c. apply confined_bind; [apply confined_insertCitationReferences|].
    intros cites. apply confined_bind; [apply confined_call_driver|].
    intros v. apply confined_ret.
Qed.

Lemma confined_appendCitationCluster (host : Host) (h : nat)
    (citation : Citation) :
  confined h (appendCitationCluster host citation).
Proof.
  unfold appendCitationCluster.
  apply confined_bind; [apply confined_insertCluster|]. intros _.
  apply confined_call_driver.
Qed.

Lemma confined_setClusterOrder (host : Host) (h : nat)
    (citations : list (JsVal * JsVal)) :
  confined h (setClusterOrder host citations).
Proof.
  unfold setClusterOrder.
  apply confined_bind; [apply confined_call_driver|]. intros _.
  apply confined_ret.
Qed.

Lemma confined_makeBibliography (host : Host) (h : nat) :
  confined h (makeBibliography host).
Proof.
  unfold makeBibliography.
  apply confined_bind; [apply confined_call_bibliographyMeta|]. intros meta.
  apply confined_bind; [apply confined_call_makeBibliography|]. intros entries.
  apply confined_bind; [apply confined_get_this|]. intros self.
  apply confined_ret.
Qed.

(** On a session that holds a handle, none of [free], the cluster methods,
    [setClusterOrder], [getBatchedUpdates], the uncited-item methods and
    [makeBibliography] changes a field of the session, constructs a handle or
    calls any handle but the session's own, whether it returns or raises. *)
Theorem methods_confined (host : Host) (h : nat) :
  (∀ ignoreErrors, confined h (free host ignoreErrors))
  ∧ (∀ citation citationsPre citationsPost outputFormat,
       confined h (previewCitationCluster host citation citationsPre
                     citationsPost outputFormat))
  ∧ (∀ citation, confined h (insertCluster host citation))
  ∧ (∀ citation, confined h (appendCitationCluster host citation))
  ∧ (∀ citations, confined h (setClusterOrder host citations))
  ∧ confined h (getBatchedUpdates host)
  ∧ (∀ itemIDs, confined h (updateUncitedItems host itemIDs))
  ∧ (∀ itemIDs, confined h (updateItems host itemIDs))
  ∧ confined h (makeBibliography host).
Proof.
  repeat apply conj.
  - apply confined_free.
  - apply confined_previewCitationCluster.
  - apply confined_insertCluster.
  - apply confined_appendCitationCluster.
  - apply confined_setClusterOrder.
  - apply confined_call_driver.
  - apply confined_updateUncitedItems.
  - apply confined_updateUncitedItems.
  - apply confined_makeBibliography.
Qed.

Lemma methods_confined_witness :
  this (insertCluster forgetful_host broken_citation demo_state).2
  = this demo_state
  ∧ ∃ new,
      trace (insertCluster forgetful_host broken_citation demo_state).2
      = trace demo_state ++ new
      ∧ Forall (addressed_to 0) new.
Proof.
  apply (proj1 (proj2 (proj2 (methods_confined forgetful_host 0)))
           broken_citation demo_state).
  reflexivity.
Defined.

Lemma confined_keeps_a_handle {A} (m : M A) :
  (∀ h, confined h m) → keeps_a_handle m.
Proof.
  intros Hm s [h Hh]. destruct (Hm h s Hh) as [Hthis _]. rewrite Hthis. eauto.
Qed.

Lemma keeps_a_handle_bind {A B} (m : M A) (f : A → M B) :
  keeps_a_handle m → (∀ a, keeps_a_handle (f a)) → keeps_a_handle (bind m f).
Proof.
  intros Hm Hf s Hs. unfold bind. specialize (Hm s Hs).
  destruct (m s) as [[a|e] s1]; simpl in *; [by apply Hf|done].
Qed.

Lemma keeps_a_handle_ret {A} (a : A) : keeps_a_handle (ret a).
Proof. by intros s Hs. Qed.

Lemma keeps_a_handle_resetDriver (host : Host) : keeps_a_handle (_resetDriver host).
Proof.
  unfold _resetDriver.
  apply keeps_a_handle_bind; [by intros s Hs|]. intros self.
  apply keeps_a_handle_bind.
  { destruct (_driver self); [|apply keeps_a_handle_ret].
    apply keeps_a_handle_bind; [|intros; apply keeps_a_handle_ret].
    apply confined_keeps_a_handle. intros h. apply confined_call_driver. }
  intros _. apply keeps_a_handle_bind.
  - intros s Hs. unfold new_Driver. by destruct (driver_new _ _ _).
  - intros h s _. simpl. eauto.
Qed.

Lemma keeps_a_handle_setOutputFormat (host : Host) (format : string) :
  keeps_a_handle (setOutputFormat host format).
Proof.
  unfold setOutputFormat.
  apply keeps_a_handle_bind; [by intros s Hs|]. intros self.
  destruct (negb _); [|apply keeps_a_handle_ret].
  apply keeps_a_handle_bind; [by intros s Hs|]. intros _.
  apply keeps_a_handle_bind; [|intros; apply keeps_a_handle_ret].
  apply confined_keeps_a_handle. intros h. apply confined_call_driver.
Qed.

Lemma keeps_a_handle_rebuildProcessorState (host : Host)
    (citations : list Citation) (format : string) (uncited : list JsVal) :
  keeps_a_handle (rebuildProcessorState host citations format uncited).
Proof.
  unfold rebuildProcessorState.
  apply keeps_a_handle_bind; [by intros s Hs|]. intros _.
  apply keeps_a_handle_bind; [apply keeps_a_handle_resetDriver|]. intros _.
  apply keeps_a_handle_bind.
  { induction citations as [|citation citations IH]; simpl.
    - apply keeps_a_handle_ret.
    - apply keeps_a_handle_bind; [|by intros].
      apply confined_keeps_a_handle. intros h. apply confined_insertCluster. }
  intros _. apply keeps_a_handle_bind.
  { apply confined_keeps_a_handle. intros h. apply confined_setClusterOrder. }
  intros _. apply confined_keeps_a_handle. intros h.
  apply confined_updateUncitedItems.
Qed.

(** A session that the constructor returns holds a handle, and it still
    holds one after any sequence of calls of its public methods, whichever of
    them return and whichever raise: a method never finds [this._driver]
    undefined. *)
Theorem session_always_has_handle (host : Host) (style : gmap string JsVal)
    (styleXML locale : JsVal) (format : string) (overrideLocale : bool)
    (t t' : list Event) (e : Engine) (calls : list MethodCall) :
  new_Engine host style styleXML locale format overrideLocale t = (Normal e, t') →
  is_Some (_driver (this (foldl (after_call host) {| this := e; trace := t' |}
                            calls))).
Proof.
  intros Hnew.
  assert (is_Some (_driver e)) as He.
  { unfold new_Engine, _resetDriver, bind, new_Driver in Hnew; simpl in Hnew.
    destruct (driver_new host t _); simpl in Hnew; [done|].
    injection Hnew as <- _. simpl. eauto. }
  assert (∀ s c, is_Some (_driver (this s)) →
                 is_Some (_driver (this (after_call host s c)))) as Hstep.
  { intros s c Hs.
    destruct c; simpl;
      [ apply (confined_keeps_a_handle (free host ignoreErrors));
        [intros h; apply confined_free|done]
      | by apply keeps_a_handle_setOutputFormat
      | apply (confined_keeps_a_handle
                 (previewCitationCluster host citation citationsPre
                    citationsPost outputFormat));
        [intros h; apply confined_previewCitationCluster|done]
      | apply (confined_keeps_a_handle (appendCitationCluster host citation));
        [intros h; apply confined_appendCitationCluster|done]
      | apply (confined_keeps_a_handle (insertCluster host citation));
        [intros h; apply confined_insertCluster|done]
      | apply (confined_keeps_a_handle (setClusterOrder host citations));
        [intros h; apply confined_setClusterOrder|done]
      | apply (confined_keeps_a_handle (getBatchedUpdates host));
        [intros h; apply confined_call_driver|done]
      | by apply keeps_a_handle_rebuildProcessorState
      | apply (confined_keeps_a_handle (updateUncitedItems host itemIDs));
        [intros h; apply confined_updateUncitedItems|done]
      | apply (confined_keeps_a_handle (updateUncitedItems host itemIDs));
        [intros h; apply confined_updateUncitedItems|done]
      | apply (confined_keeps_a_handle (makeBibliography host));
        [intros h; apply confined_makeBibliography|done] ]. }
  assert (∀ s0, is_Some (_driver (this s0)) →
                is_Some (_driver (this (foldl (after_call host) s0 calls))))
    as Hall.
  { induction calls as [|c calls IH]; intros s0 Hs0; simpl; [done|].
    apply IH. by apply Hstep. }
  by apply Hall.
Qed.

Lemma session_always_has_handle_witness :
  is_Some
    (_driver
       (this
          (foldl (after_call forgetful_host)
             {| this :=
                  {| _styleXML := JStr "<style/>"; _overrideLocale := true;
                     locale := JStr "en-US"; _format := "html";
                     _driver := Some 0%nat; styleID := JUndefined;
                     hasBibliography := JUndefined;
                     opt_sort_citations := true |};
                trace :=
                  [EvNew 0 {| o_style := JStr "<style/>"; o_format := "html";
                              o_localeOverride := Some (JStr "en-US") |}] |}
             [CallInsertCluster broken_citation;
              CallRebuildProcessorState [broken_citation] "rtf" [JNum 404];
              CallFree false; CallMakeBibliography]))).
Proof.
  apply (session_always_has_handle forgetful_host ∅ (JStr "<style/>")
           (JStr "en-US") "html" true []).
  reflexivity.
Defined.

(** ** Failures while the handle is replaced *)

Lemma resetDriver_release_fails (host : Host) (h : nat) (e : JsVal) (s : State) :
  _driver (this s) = Some h →
  driver_call host (trace s) h DFree = Throw e →
  _resetDriver host s
  = (Throw e, {| this := this s; trace := trace s ++ [EvCall h DFree] |}).
Proof.
  intros Hh Hfree. unfold _resetDriver.
  unfold bind at 1; simpl. rewrite Hh.
  unfold bind, call_driver. by rewrite Hh, Hfree.
Qed.

(** When [_resetDriver] cannot release the old handle, the error propagates
    and no handle is constructed; when the release succeeds and the
    constructor raises, the error propagates as well.  In both cases the
    session still refers to the old handle, which in the second case has
    already been released. *)
Theorem resetDriver_failure (host : Host) (h : nat) (s : State) :
  _driver (this s) = Some h →
  (∀ e, driver_call host (trace s) h DFree = Throw e →
        _resetDriver host s
        = (Throw e, {| this := this s; trace := trace s ++ [EvCall h DFree] |}))
  ∧ (∀ v e,
       driver_call host (trace s) h DFree = Normal v →
       driver_new host (trace s ++ [EvCall h DFree])
         (reset_options (this s) (_format (this s))) = Some e →
       _resetDriver host s
       = (Throw e,
          {| this := this s;
             trace := trace s ++
               [EvCall h DFree;
                EvNew (handles_created (trace s))
                  (reset_options (this s) (_format (this s)))] |})).
Proof.
  intros Hh. split.
  - intros e Hfree. by apply resetDriver_release_fails.
  - intros v e Hfree Hnew. unfold _resetDriver.
    unfold bind at 1; simpl. rewrite Hh.
    unfold bind, call_driver, new_Driver, ret; simpl.
    rewrite Hh, Hfree; simpl. unfold reset_options in Hnew. rewrite Hnew.
    unfold emit; simpl. rewrite handles_created_snoc_call.
    by rewrite <- app_assoc.
Qed.

Lemma resetDriver_failure_witness :
  _resetDriver leaky_host demo_state
  = (Throw (JStr "null pointer passed to rust"),
     {| this := this demo_state; trace := trace demo_state ++ [EvCall 0 DFree] |})
  ∧ _resetDriver stubborn_host demo_state
    = (Throw (JStr "invalid style"),
       {| this := this demo_state;
          trace := trace demo_state ++
            [EvCall 0 DFree;
             EvNew (handles_created (trace demo_state))
               (reset_options (this demo_state) (_format (this demo_state)))] |}).
Proof.
  split.
  - apply (proj1 (resetDriver_failure leaky_host 0 demo_state eq_refl)).
    reflexivity.
  - apply (proj2 (resetDriver_failure stubborn_host 0 demo_state eq_refl)
             JUndefined); reflexivity.
Defined.

(** When a rebuild cannot release the old handle, nothing else is attempted,
    but the session's format field already holds the new format although the
    handle it still refers to was never switched; a later [setOutputFormat]
    for that format therefore does nothing. *)
Theorem rebuildProcessorState_release_failure (host : Host) (h : nat)
    (citations : list Citation) (format : string) (uncited : list JsVal)
    (e : JsVal) (s : State) :
  _driver (this s) = Some h →
  driver_call host (trace s) h DFree = Throw e →
  let out := rebuildProcessorState host citations format uncited s in
  out = (Throw e,
         {| this := set_format format (this s);
            trace := trace s ++ [EvCall h DFree] |})
  ∧ (format ≠ "text" → setOutputFormat host format out.2 = (Normal tt, out.2)).
Proof.
  intros Hh Hfree out.
  assert (out = (Throw e,
                 {| this := set_format format (this s);
                    trace := trace s ++ [EvCall h DFree] |})) as Hout.
  { subst out. unfold rebuildProcessorState.
    unfold bind at 1; simpl. unfold bind at 1.
    by rewrite (resetDriver_release_fails host h e
                  {| this := set_format format (this s); trace := trace s |}
                  Hh Hfree). }
  split; [done|]. intros Htext. rewrite Hout; simpl.
  apply (setOutputFormat_same host format); [done|]. simpl.
  unfold normalized_format. by rewrite decide_False.
Qed.

Lemma rebuildProcessorState_release_failure_witness :
  let out :=
    rebuildProcessorState leaky_host [demo_citation] "rtf" [] demo_state in
  out = (Throw (JStr "null pointer passed to rust"),
         {| this := set_format "rtf" (this demo_state);
            trace := trace demo_state ++ [EvCall 0 DFree] |})
  ∧ ("rtf" ≠ "text" → setOutputFormat leaky_host "rtf" out.2 = (Normal tt, out.2)).
Proof.
  apply (rebuildProcessorState_release_failure leaky_host 0 [demo_citation] "rtf"
           [] (JStr "null pointer passed to rust") demo_state); reflexivity.
Defined.

(** ** Items that do not resolve *)

Lemma insertCitationReferences_loop_abort (host : Host) (h : nat)
    (Hacc : driver_accepts host h) (bad : gmap string JsVal) (e : JsVal)
    (items rest : list (gmap string JsVal)) :
  ∀ (cites : list JsVal) (s : State),
    _driver (this s) = Some h →
    Forall (λ item, resolves host (get "id" item)) items →
    sys_retrieveItem host (get "id" bad) = Throw e →
    _insertCitationReferences_loop host (items ++ bad :: rest) cites s
    = (Throw e,
       {| this := this s;
          trace := trace s ++
            flat_map (λ item, register_events host h (get "id" item)) items
            ++ [EvRetrieveItem (get "id" bad)] |}).
Proof.
  induction items as [|item items IH]; intros cites s Hh Hres Hbad; simpl.
  - unfold bind, retrieveItem. by rewrite Hbad.
  - apply Forall_cons in Hres as [[r Hr] Hres].
    assert (reference_of host (get "id" item)
            = <["id" := JStr (to_string (get "id" r))]> r) as Href
      by (unfold reference_of; by rewrite Hr).
    unfold bind at 1. unfold retrieveItem at 1. rewrite Hr.
    unfold bind at 1.
    destruct (call_driver_run host h Hacc
                (DInsertReference (<["id" := JStr (to_string (get "id" r))]> r))
                (emit (EvRetrieveItem (get "id" item)) s) Hh)
      as (v & -> & _).
    rewrite IH by done. simpl. rewrite Href.
    by rewrite <- !app_assoc.
Qed.

Lemma insertCluster_abort_run (host : Host) (h : nat)
    (Hacc : driver_accepts host h) (citation : Citation)
    (items rest : list (gmap string JsVal)) (bad : gmap string JsVal)
    (e : JsVal) (s : State) :
  _driver (this s) = Some h →
  citationItems citation = items ++ bad :: rest →
  Forall (λ item, resolves host (get "id" item)) items →
  sys_retrieveItem host (get "id" bad) = Throw e →
  insertCluster host citation s
  = (Throw e,
     {| this := this s;
        trace := trace s ++
          flat_map (λ item, register_events host h (get "id" item)) items
          ++ [EvRetrieveItem (get "id" bad)] |}).
Proof.
  intros Hh Hitems Hres Hbad.
  unfold insertCluster, _insertCitationReferences. rewrite Hitems.
  unfold bind at 1.
  by rewrite (insertCitationReferences_loop_abort host h Hacc bad e).
Qed.

(** When the item provider fails for one item of a citation, [insertCluster]
    and [appendCitationCluster] raise the provider's error.  The references
    of the items before the failing one stay registered with the handle,
    the items after it are not looked at, and neither [insertCluster] nor
    [builtCluster] is called on the handle. *)
Theorem insertCluster_abort (host : Host) (h : nat) (citation : Citation)
    (items rest : list (gmap string JsVal)) (bad : gmap string JsVal)
    (e : JsVal) (s : State) :
  _driver (this s) = Some h →
  driver_accepts host h →
  citationItems citation = items ++ bad :: rest →
  Forall (λ item, resolves host (get "id" item)) items →
  sys_retrieveItem host (get "id" bad) = Throw e →
  let aborted :=
    {| this := this s;
       trace := trace s ++
         flat_map (λ item, register_events host h (get "id" item)) items
         ++ [EvRetrieveItem (get "id" bad)] |} in
  insertCluster host citation s = (Throw e, aborted)
  ∧ appendCitationCluster host citation s = (Throw e, aborted).
Proof.
  intros Hh Hacc Hitems Hres Hbad aborted.
  assert (insertCluster host citation s = (Throw e, aborted)) as Hinsert
    by (by apply (insertCluster_abort_run host h Hacc citation items rest bad)).
  split; [done|]. unfold appendCitationCluster, bind. by rewrite Hinsert.
Qed.

Lemma insertCluster_abort_witness :
  let aborted :=
    {| this := this demo_state;
       trace := trace demo_state ++
         flat_map (λ item, register_events forgetful_host 0 (get "id" item))
           [ <["id" := JNum 5]> ∅ ]
         ++ [EvRetrieveItem (get "id" (<["id" := JNum 404]> ∅))] |} in
  insertCluster forgetful_host broken_citation demo_state
  = (Throw (JStr "item not found"), aborted)
  ∧ appendCitationCluster forgetful_host broken_citation demo_state
    = (Throw (JStr "item not found"), aborted).
Proof.
  apply (insertCluster_abort forgetful_host 0 broken_citation
           [ <["id" := JNum 5]> ∅ ] [ <["id" := JNum 7]> ∅ ]
           (<["id" := JNum 404]> ∅) (JStr "item not found") demo_state).
  - reflexivity.
  - intros t c. destruct c; eexists; reflexivity.
  - reflexivity.
  - repeat constructor; eexists; reflexivity.
  - reflexivity.
Defined.

Lemma updateUncitedItems_loop_abort (host : Host) (h : nat)
    (Hacc : driver_accepts host h) (bad e : JsVal)
    (itemIDs rest : list JsVal) :
  ∀ (referenceIDs : list JsVal) (s : State),
    _driver (this s) = Some h →
    Forall (resolves host) itemIDs →
    sys_retrieveItem host bad = Throw e →
    updateUncitedItems_loop host (itemIDs ++ bad :: rest) referenceIDs s
    = (Throw e,
       {| this := this s;
          trace := trace s ++ flat_map (register_events host h) itemIDs
                   ++ [EvRetrieveItem bad] |}).
Proof.
  induction itemIDs as [|id itemIDs IH]; intros referenceIDs s Hh Hres Hbad;
    simpl.
  - unfold bind, retrieveItem. by rewrite Hbad.
  - apply Forall_cons in Hres as [[r Hr] Hres].
    assert (reference_of host id = <["id" := JStr (to_string (get "id" r))]> r)
      as Href by (unfold reference_of; by rewrite Hr).
    unfold bind at 1. unfold retrieveItem at 1. rewrite Hr.
    unfold bind at 1.
    destruct (call_driver_run host h Hacc
                (DInsertReference (<["id" := JStr (to_string (get "id" r))]> r))
                (emit (EvRetrieveItem id) s) Hh)
      as (v & -> & _).
    rewrite IH by done. simpl. rewrite Href.
    by rewrite <- !app_assoc.
Qed.

Lemma register_events_no_includeUncited (host : Host) (h : nat)
    (itemIDs : list JsVal) :
  Forall (λ ev, is_includeUncited ev = false)
    (flat_map (register_events host h) itemIDs).
Proof. induction itemIDs; simpl; by repeat constructor. Qed.

(** When the item provider fails for one of the ids, [updateUncitedItems]
    raises the provider's error after registering the references of the ids
    before it, and never reaches [includeUncited]: the set of uncited items
    that the handle was given earlier stays in force. *)
Theorem updateUncitedItems_abort (host : Host) (h : nat)
    (itemIDs rest : list JsVal) (bad e : JsVal) (s : State) :
  _driver (this s) = Some h →
  driver_accepts host h →
  Forall (resolves host) itemIDs →
  sys_retrieveItem host bad = Throw e →
  ∃ new,
    updateUncitedItems host (itemIDs ++ bad :: rest) s
    = (Throw e, {| this := this s; trace := trace s ++ new |})
    ∧ new = flat_map (register_events host h) itemIDs ++ [EvRetrieveItem bad]
    ∧ Forall (λ ev, is_includeUncited ev = false) new.
Proof.
  intros Hh Hacc Hres Hbad. eexists. split; [|split; [reflexivity|]].
  - unfold updateUncitedItems, bind.
    by rewrite (updateUncitedItems_loop_abort host h Hacc bad e).
  - apply Forall_app. split; [apply register_events_no_includeUncited|].
    by repeat constructor.
Qed.

Lemma updateUncitedItems_abort_witness :
  ∃ new,
    updateUncitedItems forgetful_host ([JNum 9] ++ JNum 404 :: [JNum 11])
      demo_state
    = (Throw (JStr "item not found"),
       {| this := this demo_state; trace := trace demo_state ++ new |})
    ∧ new = flat_map (register_events forgetful_host 0) [JNum 9]
            ++ [EvRetrieveItem (JNum 404)]
    ∧ Forall (λ ev, is_includeUncited ev = false) new.
Proof.
  apply (updateUncitedItems_abort forgetful_host 0 [JNum 9] [JNum 11]
           (JNum 404) (JStr "item not found") demo_state).
  - reflexivity.
  - intros t c. destruct c; eexists; reflexivity.
  - repeat constructor; eexists; reflexivity.
  - reflexivity.
Defined.

(** For an empty list of ids [updateUncitedItems] does not consult the item
    provider and sends the handle one [includeUncited] request with an empty
    [Specific] list, which withdraws every uncited item. *)
Theorem updateUncitedItems_empty (host : Host) (h : nat) (s : State) :
  _driver (this s) = Some h →
  (updateUncitedItems host [] s).2
  = {| this := this s;
       trace := trace s ++
         [EvCall h (DIncludeUncited (<["Specific" := JArr []]> ∅))] |}.
Proof.
  intros Hh. unfold updateUncitedItems, bind, call_driver; simpl. rewrite Hh.
  by destruct (driver_call host _ h _).
Qed.

Lemma updateUncitedItems_empty_witness :
  (updateUncitedItems demo_host [] demo_state).2
  = {| this := this demo_state;
       trace := trace demo_state ++
         [EvCall 0 (DIncludeUncited (<["Specific" := JArr []]> ∅))] |}.
Proof. apply (updateUncitedItems_empty demo_host 0 demo_state). reflexivity. Defined.

Lemma insertCluster_each_abort (host : Host) (h : nat)
    (Hacc : driver_accepts host h) (broken : Citation)
    (items rest : list (gmap string JsVal)) (bad : gmap string JsVal)
    (e : JsVal) (later : list Citation) (citations : list Citation) :
  ∀ s : State,
    _driver (this s) = Some h →
    Forall (λ citation,
              Forall (λ item, resolves host (get "id" item))
                (citationItems citation)) citations →
    citationItems broken = items ++ bad :: rest →
    Forall (λ item, resolves host (get "id" item)) items →
    sys_retrieveItem host (get "id" bad) = Throw e →
    insertCluster_each host (citations ++ broken :: later) s
    = (Throw e,
       {| this := this s;
          trace := trace s ++ flat_map (insertCluster_events host h) citations
            ++ flat_map (λ item, register_events host h (get "id" item)) items
            ++ [EvRetrieveItem (get "id" bad)] |}).
Proof.
  induction citations as [|citation citations IH];
    intros s Hh Hres Hitems Hprefix Hbad; simpl.
  - unfold bind.
    by rewrite (insertCluster_abort_run host h Hacc broken items rest bad e s
                  Hh Hitems Hprefix Hbad).
  - apply Forall_cons in Hres as [Hcitation Hres].
    unfold bind. rewrite (insertCluster_run host h Hacc) by done.
    rewrite IH by done. simpl. by rewrite <- !app_assoc.
Qed.

(** When the item provider fails in the middle of a rebuild, the error
    propagates with no rollback: the old handle is released, the session is
    on the new handle under the new format, the clusters before the failing
    citation are inserted, and neither the cluster order nor the uncited
    items have been set on the new handle. *)
Theorem rebuildProcessorState_abort (host : Host) (h : nat)
    (citations later : list Citation) (broken : Citation)
    (items rest : list (gmap string JsVal)) (bad : gmap string JsVal)
    (e : JsVal) (format : string) (uncited : list JsVal) (s : State) :
  _driver (this s) = Some h →
  engine_cooperates host →
  Forall (λ citation,
            Forall (λ item, resolves host (get "id" item))
              (citationItems citation)) citations →
  citationItems broken = items ++ bad :: rest →
  Forall (λ item, resolves host (get "id" item)) items →
  sys_retrieveItem host (get "id" bad) = Throw e →
  let h' := handles_created (trace s) in
  rebuildProcessorState host (citations ++ broken :: later) format uncited s
  = (Throw e,
     {| this := set_driver h' (set_format format (this s));
        trace := trace s ++
          [EvCall h DFree; EvNew h' (reset_options (this s) format)]
          ++ flat_map (insertCluster_events host h') citations
          ++ flat_map (λ item, register_events host h' (get "id" item)) items
          ++ [EvRetrieveItem (get "id" bad)] |}).
Proof.
  intros Hh Hcoop Hres Hitems Hprefix Hbad h'. subst h'.
  pose proof (proj1 Hcoop (handles_created (trace s))) as Hacc'.
  unfold rebuildProcessorState.
  unfold bind at 1; simpl. unfold bind at 1.
  rewrite (resetDriver_run host h) by done; simpl.
  unfold bind at 1.
  rewrite (insertCluster_each_abort host _ Hacc' broken items rest bad e)
    by done; simpl.
  unfold reset_options; simpl. by rewrite <- !app_assoc.
Qed.

Lemma rebuildProcessorState_abort_witness :
  let h' := handles_created (trace demo_state) in
  rebuildProcessorState forgetful_host
    ([demo_citation_named] ++ broken_citation :: [demo_citation]) "rtf"
    [JNum 9] demo_state
  = (Throw (JStr "item not found"),
     {| this := set_driver h' (set_format "rtf" (this demo_state));
        trace := trace demo_state ++
          [EvCall 0 DFree; EvNew h' (reset_options (this demo_state) "rtf")]
          ++ flat_map (insertCluster_events forgetful_host h')
               [demo_citation_named]
          ++ flat_map (λ item, register_events forgetful_host h' (get "id" item))
               [ <["id" := JNum 5]> ∅ ]
          ++ [EvRetrieveItem (get "id" (<["id" := JNum 404]> ∅))] |}).
Proof.
  apply (rebuildProcessorState_abort forgetful_host 0 [demo_citation_named]
           [demo_citation] broken_citation [ <["id" := JNum 5]> ∅ ]
           [ <["id" := JNum 7]> ∅ ] (<["id" := JNum 404]> ∅)
           (JStr "item not found") "rtf" [JNum 9] demo_state).
  - reflexivity.
  - split; [intros h t c; destruct c; eexists; reflexivity | reflexivity].
  - repeat constructor; eexists; reflexivity.
  - reflexivity.
  - repeat constructor; eexists; reflexivity.
  - reflexivity.
Defined.

(** ** Releasing twice *)

(** A successful [free] leaves the session's reference to the released
    handle in place: a second [free] releases the same handle again, and any
    later method is still forwarded to it. *)
Theorem free_keeps_reference (host : Host) (h : nat) (ignoreErrors : bool)
    (s : State) :
  _driver (this s) = Some h →
  driver_accepts host h →
  let once := (free host ignoreErrors s).2 in
  free host ignoreErrors s
  = (Normal tt, {| this := this s; trace := trace s ++ [EvCall h DFree] |})
  ∧ free host ignoreErrors once
    = (Normal tt,
       {| this := this s; trace := trace s ++ [EvCall h DFree; EvCall h DFree] |})
  ∧ (getBatchedUpdates host once).2
    = {| this := this s;
         trace := trace s ++ [EvCall h DFree; EvCall h DBatchedUpdates] |}.
Proof.
  intros Hh Hacc once.
  assert (∀ s0, _driver (this s0) = Some h →
                free host ignoreErrors s0
                = (Normal tt,
                   {| this := this s0; trace := trace s0 ++ [EvCall h DFree] |}))
    as Hfree.
  { intros s0 Hs0. unfold free, try_catch, bind.
    by destruct (call_driver_run host h Hacc DFree s0 Hs0) as (v & -> & _). }
  subst once. rewrite (Hfree s Hh); simpl.
  split; [done|]. split.
  - rewrite Hfree by done. simpl. by rewrite <- app_assoc.
  - unfold getBatchedUpdates, call_driver; simpl. rewrite Hh; simpl.
    unfold emit; simpl. by rewrite <- app_assoc.
Qed.

Lemma free_keeps_reference_witness :
  let once := (free demo_host false demo_state).2 in
  free demo_host false demo_state
  = (Normal tt,
     {| this := this demo_state; trace := trace demo_state ++ [EvCall 0 DFree] |})
  ∧ free demo_host false once
    = (Normal tt,
       {| this := this demo_state;
          trace := trace demo_state ++ [EvCall 0 DFree; EvCall 0 DFree] |})
  ∧ (getBatchedUpdates demo_host once).2
    = {| this := this demo_state;
         trace := trace demo_state ++ [EvCall 0 DFree; EvCall 0 DBatchedUpdates] |}.
Proof.
  apply (free_keeps_reference demo_host 0 false demo_state).
  - reflexivity.
  - intros t c. destruct c; eexists; reflexivity.
Defined.

(** ** The shape of cites and order entries *)

Lemma build_cite_names (citationItem citeprocItem : gmap string JsVal)
    (key : string) :
  key ∉ cite_names → build_cite citationItem citeprocItem !! key = None.
Proof.
  intros Hkey. unfold cite_names in Hkey.
  repeat (apply not_elem_of_cons in Hkey as [? Hkey]).
  unfold build_cite, additionalCSLProperties, add_cite_property; simpl.
  split_truthy; by rewrite !lookup_insert_ne, lookup_empty by done.
Qed.

Lemma build_cite_locators (citationItem citeprocItem : gmap string JsVal) :
  build_cite citationItem citeprocItem !! "locators" = Some JUndefined
  ∧ is_Some (build_cite citationItem citeprocItem !! "locator").
Proof.
  unfold build_cite, additionalCSLProperties, add_cite_property; simpl.
  split_truthy; split; by simplify_map_eq.
Qed.

Lemma insertCitationReferences_loop_built (host : Host)
    (items : list (gmap string JsVal)) :
  ∀ (acc cites : list JsVal) (s s' : State),
    _insertCitationReferences_loop host items acc s = (Normal cites, s') →
    ∃ built,
      cites = acc ++ built
      ∧ Forall2 (λ item cite, ∃ r, cite = JObj (build_cite item r)) items built.
Proof.
  induction items as [|item items IH]; intros acc cites s s' Hrun; simpl in Hrun.
  - injection Hrun as <- _. exists []. by rewrite app_nil_r.
  - unfold bind at 1 in Hrun.
    destruct (retrieveItem host (get "id" item) s) as [[r|e] s1]; [|done].
    unfold bind at 1 in Hrun.
    destruct (call_driver host _ s1) as [[v|e] s2]; [|done].
    apply IH in Hrun as (built & -> & Hbuilt).
    eexists (_ :: built). rewrite <- app_assoc. split; [done|].
    constructor; [|done]. by eexists.
Qed.

(** Whenever [_insertCitationReferences] returns, the mode of each cite
    follows its item: "AuthorOnly" when author-only is active, also when
    suppress-author is active as well; otherwise "SuppressAuthor" when
    suppress-author is active; otherwise the cite has no mode. *)
Theorem cites_mode_precedence (host : Host) (citation : Citation)
    (cites : list JsVal) (s s' : State) :
  _insertCitationReferences host citation s = (Normal cites, s') →
  Forall2
    (λ item cite,
       ∃ c, cite = JObj c
            ∧ c !! "mode" =
                if author_only item then Some (JStr "AuthorOnly")
                else if suppress_author item then Some (JStr "SuppressAuthor")
                else None)
    (citationItems citation) cites.
Proof.
  intros Hrun. apply insertCitationReferences_loop_built in Hrun
    as (built & -> & Hbuilt). simpl.
  eapply Forall2_impl; [exact Hbuilt|].
  intros item cite [r ->]. eexists. split; [done|]. apply build_cite_mode.
Qed.

Lemma cites_mode_precedence_witness :
  Forall2
    (λ item cite,
       ∃ c, cite = JObj c
            ∧ c !! "mode" =
                if author_only item then Some (JStr "AuthorOnly")
                else if suppress_author item then Some (JStr "SuppressAuthor")
                else None)
    (citationItems demo_citation) (cites_of demo_host demo_citation).
Proof.
  apply (cites_mode_precedence demo_host demo_citation
           (cites_of demo_host demo_citation) demo_state
           (_insertCitationReferences demo_host demo_citation demo_state).2).
  reflexivity.
Defined.

(** Whenever [_insertCitationReferences] returns, every cite is an object
    whose [id] is a string, that always has the properties [locator] and
    [locators], the latter undefined, and that has no property beyond [id],
    [locator], [locators], [mode], [label], [prefix] and [suffix]: the
    [suppress-author] and [author-only] flags and any other property of the
    citation item are not passed on. *)
Theorem cites_shape (host : Host) (citation : Citation) (cites : list JsVal)
    (s s' : State) :
  _insertCitationReferences host citation s = (Normal cites, s') →
  length cites = length (citationItems citation)
  ∧ Forall
      (λ cite,
         ∃ c id, cite = JObj c
                 ∧ c !! "id" = Some (JStr id)
                 ∧ c !! "locators" = Some JUndefined
                 ∧ is_Some (c !! "locator")
                 ∧ ∀ key, key ∉ cite_names → c !! key = None)
      cites.
Proof.
  intros Hrun. apply insertCitationReferences_loop_built in Hrun
    as (built & -> & Hbuilt). simpl.
  split; [symmetry; by eapply Forall2_length|].
  induction Hbuilt as [|item cite items built [r ->] _ IH]; constructor; [|done].
  eexists _, _. split; [done|]. split; [apply build_cite_id|].
  split; [apply build_cite_locators|]. split; [apply build_cite_locators|].
  intros key Hkey. by apply build_cite_names.
Qed.

Lemma cites_shape_witness :
  length (cites_of demo_host demo_citation)
  = length (citationItems demo_citation)
  ∧ Forall
      (λ cite,
         ∃ c id, cite = JObj c
                 ∧ c !! "id" = Some (JStr id)
                 ∧ c !! "locators" = Some JUndefined
                 ∧ is_Some (c !! "locator")
                 ∧ ∀ key, key ∉ cite_names → c !! key = None)
      (cites_of demo_host demo_citation).
Proof.
  apply (cites_shape demo_host demo_citation (cites_of demo_host demo_citation)
           demo_state
           (_insertCitationReferences demo_host demo_citation demo_state).2).
  reflexivity.
Defined.

Lemma cluster_order_entry_shape (id noteIndex : JsVal) :
  let entry := cluster_order_entry (id, noteIndex) in
  entry !! "id" = Some id
  ∧ (∀ key, key ≠ "id" → key ≠ "note" → entry !! key = None)
  ∧ (entry !! "note" = None
     ∨ ∃ n, entry !! "note" = Some n ∧ truthy n = true ∧ is_string n = false)
  ∧ (is_string noteIndex = false →
       entry !! "note" = if truthy noteIndex then Some noteIndex else None).
Proof.
  unfold cluster_order_entry.
  destruct (is_string noteIndex) eqn:Hstring.
  - destruct noteIndex as [| |b|z| |str|o|l]; try done. simpl.
    destruct (parseInt_cases str) as [-> | [z ->]]; simpl.
    + split; [by simplify_map_eq|]. split; [|split; [by left|done]].
      intros key ? ?. by simplify_map_eq.
    + destruct (z =? 0) eqn:Hz; simpl.
      * split; [by simplify_map_eq|]. split; [|split; [by left|done]].
        intros key ? ?. by simplify_map_eq.
      * split; [by simplify_map_eq|]. split; [|split; [|done]].
        -- intros key ? ?. by simplify_map_eq.
        -- right. exists (JNum z). split; [by simplify_map_eq|].
           simpl. by rewrite Hz.
  - destruct (truthy noteIndex) eqn:Htruthy.
    + split; [by simplify_map_eq|]. split; [|split].
      * intros key ? ?. by simplify_map_eq.
      * right. exists noteIndex. split; [by simplify_map_eq|done].
      * intros _. by simplify_map_eq.
    + split; [by simplify_map_eq|]. split; [|split].
      * intros key ? ?. by simplify_map_eq.
      * by left.
      * intros _. by simplify_map_eq.
Qed.

(** [_getClusterOrder] returns one entry per pair, in order, and distributes
    over concatenation.  An entry has the pair's id as given, possibly a
    [note], and nothing else; a [note] is never a string and never falsy; and
    a note index that is not a string is passed through unchanged when it is
    truthy, whatever it is. *)
Theorem getClusterOrder_entries (citations : list (JsVal * JsVal)) :
  length (_getClusterOrder citations) = length citations
  ∧ (∀ more, _getClusterOrder (citations ++ more)
             = _getClusterOrder citations ++ _getClusterOrder more)
  ∧ (∀ i id noteIndex, citations !! i = Some (id, noteIndex) →
       ∃ entry,
         _getClusterOrder citations !! i = Some entry
         ∧ entry !! "id" = Some id
         ∧ (∀ key, key ≠ "id" → key ≠ "note" → entry !! key = None)
         ∧ (entry !! "note" = None
            ∨ ∃ n, entry !! "note" = Some n ∧ truthy n = true
                   ∧ is_string n = false)
         ∧ (is_string noteIndex = false →
              entry !! "note" = if truthy noteIndex then Some noteIndex else None)).
Proof.
  split; [by rewrite getClusterOrder_map, length_map|].
  split; [intros more; by rewrite !getClusterOrder_map, map_app|].
  intros i id noteIndex Hi.
  exists (cluster_order_entry (id, noteIndex)).
  split; [by rewrite getClusterOrder_map, list_lookup_fmap, Hi|].
  apply cluster_order_entry_shape.
Qed.

Lemma getClusterOrder_entries_witness :
  ∃ entry,
    _getClusterOrder [(JStr "a", JStr "007"); (JStr "b", JBool true)] !! 1%nat
    = Some entry
    ∧ entry !! "id" = Some (JStr "b")
    ∧ (∀ key, key ≠ "id" → key ≠ "note" → entry !! key = None)
    ∧ (entry !! "note" = None
       ∨ ∃ n, entry !! "note" = Some n ∧ truthy n = true ∧ is_string n = false)
    ∧ (is_string (JBool true) = false →
         entry !! "note" = if truthy (JBool true) then Some (JBool true) else None).
Proof.
  apply (proj2 (proj2 (getClusterOrder_entries
                         [(JStr "a", JStr "007"); (JStr "b", JBool true)]))
           1%nat (JStr "b") (JBool true)).
  reflexivity.
Defined.

(** ** More on output formats *)

Lemma setOutputFormat_format_after (host : Host) (h : nat) (format : string)
    (s : State) :
  _driver (this s) = Some h →
  _format (this (setOutputFormat host format s).2) = normalized_format format.
Proof.
  intros Hh.
  destruct (decide (_format (this s) = normalized_format format)) as [Heq|Hne].
  - by rewrite (setOutputFormat_same host format format s eq_refl Heq).
  - by rewrite (setOutputFormat_changed host h format s Hh Hne).
Qed.

(** When the handle refuses the format switch, [setOutputFormat] raises, but
    the session has already recorded the new format: asking for the same
    format again does nothing, so the switch is never sent to the handle a
    second time. *)
Theorem setOutputFormat_rejected (host : Host) (h : nat) (format : string)
    (e : JsVal) (s : State) :
  _driver (this s) = Some h →
  _format (this s) ≠ normalized_format format →
  driver_call host (trace s) h (DSetOutputFormat (normalized_format format))
  = Throw e →
  let out := setOutputFormat host format s in
  out = (Throw e,
         {| this := set_format (normalized_format format) (this s);
            trace := trace s ++
              [EvCall h (DSetOutputFormat (normalized_format format))] |})
  ∧ setOutputFormat host format out.2 = (Normal tt, out.2).
Proof.
  intros Hh Hne Hcall out. subst out.
  rewrite (setOutputFormat_changed host h format s Hh Hne), Hcall. simpl.
  split; [done|]. by apply (setOutputFormat_same host format).
Qed.

Lemma setOutputFormat_rejected_witness :
  let out := setOutputFormat rigid_host "text" demo_state in
  out = (Throw (JStr "unknown output format"),
         {| this := set_format (normalized_format "text") (this demo_state);
            trace := trace demo_state ++
              [EvCall 0 (DSetOutputFormat (normalized_format "text"))] |})
  ∧ setOutputFormat rigid_host "text" out.2 = (Normal tt, out.2).
Proof.
  apply (setOutputFormat_rejected rigid_host 0 "text"
           (JStr "unknown output format") demo_state).
  - reflexivity.
  - vm_compute. discriminate.
  - reflexivity.
Defined.

(** The alias "text" is only understood by [setOutputFormat].  A session
    constructed with the format "text" keeps that name and creates its handle
    under it; for such a session [setOutputFormat("text")] is a switch, to
    "plain", and [makeBibliography] returns the entry values as they are,
    without the newline of the plain format. *)
Theorem text_alias_not_normalized (host : Host) (style : gmap string JsVal)
    (styleXML locale : JsVal) (overrideLocale : bool) (t t' : list Event)
    (e : Engine) (meta : gmap string JsVal) (entries : list BibEntry) :
  new_Engine host style styleXML locale "text" overrideLocale t = (Normal e, t') →
  let s := {| this := e; trace := t' |} in
  ∃ h options,
    _driver e = Some h
    ∧ t' = t ++ [EvNew h options] ∧ o_format options = "text"
    ∧ (setOutputFormat host "text" s).2
      = {| this := set_format "plain" e;
           trace := t' ++ [EvCall h (DSetOutputFormat "plain")] |}
    ∧ (driver_bibliographyMeta host t' h = Normal meta →
       driver_makeBibliography host (t' ++ [EvCall h DBibliographyMeta]) h
       = Normal entries →
       ∃ result s',
         makeBibliography host s
         = (Normal (result, map entry_value entries), s')).
Proof.
  intros Hnew s. subst s.
  unfold new_Engine, _resetDriver, bind, new_Driver in Hnew; simpl in Hnew.
  destruct (driver_new host t _); simpl in Hnew; [done|].
  injection Hnew as <- <-.
  eexists _, _. split; [reflexivity|]. split; [reflexivity|].
  split; [reflexivity|]. split.
  - match goal with
    | |- (setOutputFormat host _ ?s0).2 = _ =>
        rewrite (setOutputFormat_changed host (handles_created t) "text" s0)
    end; [done|done|]. simpl. by vm_compute.
  - intros Hmeta Hentries.
    match goal with
    | |- ∃ result s', makeBibliography host ?s0 = _ =>
        rewrite (makeBibliography_run host (handles_created t) meta entries s0
                   eq_refl Hmeta Hentries)
    end.
    eexists _, _. do 2 f_equal.
Qed.

Lemma text_alias_not_normalized_witness :
  let e :=
    {| _styleXML := JStr "<style/>"; _overrideLocale := false;
       locale := JStr "en-US"; _format := "text"; _driver := Some 0%nat;
       styleID := JUndefined; hasBibliography := JUndefined;
       opt_sort_citations := true |} in
  let t' :=
    [EvNew 0 {| o_style := JStr "<style/>"; o_format := "text";
                o_localeOverride := None |}] in
  let s := {| this := e; trace := t' |} in
  ∃ h options,
    _driver e = Some h
    ∧ t' = [] ++ [EvNew h options] ∧ o_format options = "text"
    ∧ (setOutputFormat demo_host "text" s).2
      = {| this := set_format "plain" e;
           trace := t' ++ [EvCall h (DSetOutputFormat "plain")] |}
    ∧ (driver_bibliographyMeta demo_host t' h = Normal demo_meta →
       driver_makeBibliography demo_host (t' ++ [EvCall h DBibliographyMeta]) h
       = Normal demo_entries →
       ∃ result s',
         makeBibliography demo_host s
         = (Normal (result, map entry_value demo_entries), s')).
Proof.
  apply (text_alias_not_normalized demo_host ∅ (JStr "<style/>") (JStr "en-US")
           false [] _ _ demo_meta demo_entries).
  reflexivity.
Defined.

(** After [setOutputFormat(format)], whether the handle accepted the switch
    or raised, [makeBibliography] wraps the entries by the normalized
    format. *)
Theorem makeBibliography_after_setOutputFormat (host : Host) (h : nat)
    (format : string) (meta : gmap string JsVal) (entries : list BibEntry)
    (s : State) :
  _driver (this s) = Some h →
  let s1 := (setOutputFormat host format s).2 in
  driver_bibliographyMeta host (trace s1) h = Normal meta →
  driver_makeBibliography host (trace s1 ++ [EvCall h DBibliographyMeta]) h
  = Normal entries →
  ∃ result s2,
    makeBibliography host s1
    = (Normal
         (result,
          map (λ entry, wrap_entry (normalized_format format) (entry_value entry))
            entries),
       s2).
Proof.
  intros Hh s1 Hmeta Hentries.
  assert (_driver (this s1) = Some h) as Hh1.
  { subst s1.
    destruct (decide (_format (this s) = normalized_format format)) as [Heq|Hne].
    - by rewrite (setOutputFormat_same host format format s eq_refl Heq).
    - by rewrite (setOutputFormat_changed host h format s Hh Hne). }
  rewrite (makeBibliography_run host h meta entries s1 Hh1 Hmeta Hentries).
  subst s1. rewrite (setOutputFormat_format_after host h) by done.
  by eexists _, _.
Qed.

Lemma makeBibliography_after_setOutputFormat_witness :
  ∃ result s2,
    makeBibliography rigid_host (setOutputFormat rigid_host "text" demo_state).2
    = (Normal
         (result,
          map (λ entry, wrap_entry (normalized_format "text") (entry_value entry))
            demo_entries),
       s2).
Proof.
  apply (makeBibliography_after_setOutputFormat rigid_host 0 "text" demo_meta
           demo_entries demo_state); reflexivity.
Defined.

(** ** More on the bibliography *)

(** [makeBibliography] only asks: it sends the handle [bibliographyMeta] and
    then [makeBibliography], nothing else, and it leaves the session as it
    was.  When [bibliographyMeta] raises, the error propagates and the
    entries are not requested. *)
Theorem makeBibliography_queries (host : Host) (h : nat) (s : State) :
  _driver (this s) = Some h →
  let out := makeBibliography host s in
  this out.2 = this s
  ∧ (trace out.2 = trace s ++ [EvCall h DBibliographyMeta]
     ∨ trace out.2
       = trace s ++ [EvCall h DBibliographyMeta; EvCall h DMakeBibliography])
  ∧ (∀ e, driver_bibliographyMeta host (trace s) h = Throw e →
          out = (Throw e, emit (EvCall h DBibliographyMeta) s)).
Proof.
  intros Hh out. subst out.
  destruct (driver_bibliographyMeta host (trace s) h) as [meta|e] eqn:Hmeta.
  - destruct (driver_makeBibliography host
                (trace s ++ [EvCall h DBibliographyMeta]) h)
      as [entries|e] eqn:Hentries.
    + rewrite (makeBibliography_run host h meta entries s Hh Hmeta Hentries).
      simpl. split; [done|]. split; [by right|done].
    + assert (makeBibliography host s
              = (Throw e,
                 {| this := this s;
                    trace := trace s ++
                      [EvCall h DBibliographyMeta; EvCall h DMakeBibliography] |}))
        as ->.
      { unfold makeBibliography, bind, call_bibliographyMeta,
          call_makeBibliography.
        rewrite Hh, Hmeta; simpl. rewrite Hh, Hentries.
        unfold emit; simpl. by rewrite <- app_assoc. }
      simpl. split; [done|]. split; [by right|done].
  - assert (makeBibliography host s
            = (Throw e, emit (EvCall h DBibliographyMeta) s)) as ->.
    { unfold makeBibliography, bind, call_bibliographyMeta.
      by rewrite Hh, Hmeta. }
    simpl. split; [done|]. split; [by left|]. by intros e' [= <-].
Qed.

Lemma makeBibliography_queries_witness :
  let out := makeBibliography demo_host demo_state in
  this out.2 = this demo_state
  ∧ (trace out.2 = trace demo_state ++ [EvCall 0 DBibliographyMeta]
     ∨ trace out.2
       = trace demo_state
         ++ [EvCall 0 DBibliographyMeta; EvCall 0 DMakeBibliography])
  ∧ (∀ e, driver_bibliographyMeta demo_host (trace demo_state) 0 = Throw e →
          out = (Throw e, emit (EvCall 0 DBibliographyMeta) demo_state)).
Proof. apply (makeBibliography_queries demo_host 0 demo_state). reflexivity. Defined.



(** ** Previewing and inserting *)

(** The cluster that a preview shows to the engine has exactly the cites
    that [insertCluster] inserts for the same citation, and no id: not the
    citation's [citationID], and not the one that the preview itself assigns
    when there is none. *)
Theorem preview_cluster_matches_insertCluster (host : Host) (h : nat)
    (citation : Citation) (citationsPre citationsPost : list (JsVal * JsVal))
    (outputFormat : JsVal) (s : State) :
  _driver (this s) = Some h →
  driver_accepts host h →
  Forall (λ item, resolves host (get "id" item)) (citationItems citation) →
  ∃ previewed order t inserted s1,
    trace (previewCitationCluster host citation citationsPre citationsPost
             outputFormat s).2
    = t ++ [EvCall h (DPreviewCluster previewed order outputFormat)]
    ∧ insertCluster host citation s = (Normal inserted, s1)
    ∧ previewed !! "cites" = inserted !! "cites"
    ∧ is_Some (previewed !! "cites")
    ∧ previewed !! "id" = None
    ∧ inserted !! "id" = Some (citationID citation).
Proof.
  intros Hh Hacc Hres.
  destruct (previewCitationCluster_run host h citation citationsPre citationsPost
              outputFormat s Hh Hacc Hres) as [result ->].
  rewrite (insertCluster_run host h Hacc citation s Hh Hres).
  eexists _, _, _, _, _. split; [reflexivity|]. split; [reflexivity|].
  unfold cluster_of. by simplify_map_eq.
Qed.

Lemma preview_cluster_matches_insertCluster_witness :
  ∃ previewed order t inserted s1,
    trace (previewCitationCluster demo_host demo_citation [] [] (JStr "html")
             demo_state).2
    = t ++ [EvCall 0 (DPreviewCluster previewed order (JStr "html"))]
    ∧ insertCluster demo_host demo_citation demo_state = (Normal inserted, s1)
    ∧ previewed !! "cites" = inserted !! "cites"
    ∧ is_Some (previewed !! "cites")
    ∧ previewed !! "id" = None
    ∧ inserted !! "id" = Some (citationID demo_citation).
Proof.
  apply (preview_cluster_matches_insertCluster demo_host 0 demo_citation [] []
           (JStr "html") demo_state).
  - reflexivity.
  - intros t c. destruct c; eexists; reflexivity.
  - repeat constructor; eexists; reflexivity.
Defined.

(** ** Initialization *)

Lemma init_followers_lookup (followers : list InitCall) (j : nat) (c : InitCall) :
  Forall (λ c, c = ReturnedDeferred) followers →
  followers !! j = Some c → c = ReturnedDeferred.
Proof.
  intros Hall Hj. rewrite Forall_forall in Hall. apply Hall.
  by eapply list_elem_of_lookup_2.
Qed.

Lemma init_owner_deferred (driverClass : JsVal) (owner : InitCall)
    (st : InitState) :
  init_owner_ok driverClass owner st →
  is_Some (deferred (Zotero_CiteprocRs st)).
Proof. destruct owner; simpl; [| |done| |]; intros [-> _]; simpl; eauto. Qed.

Ltac keep_owner :=
  match goal with
  | Hcalls : init_calls _ = ?owner :: ?followers |- _ =>
      exists owner, followers; rewrite ?Hcalls; done
  end.

Lemma init_step_invariant (driverClass : JsVal) (st : InitState)
    (step : InitStep) :
  init_invariant driverClass st →
  init_invariant driverClass (init_step driverClass st step).
Proof.
  intros [-> | (owner & followers & Hcalls & Hfollowers & Howner)].
  - destruct step as [loadSubScript require | i answer | i answer]; simpl.
    + right. unfold init_call; simpl.
      destruct loadSubScript as [e|]; [|destruct require as [e|]]; simpl.
      * exists (InitRejected e), []. repeat (split; [done|]).
        exists JUndefined. by eexists [_; _; _].
      * exists (InitRejected e), []. repeat (split; [done|]).
        exists JUndefined. by eexists [_; _].
      * by exists AwaitsRequest, [].
    + by left.
    + by left.
  - right. destruct step as [loadSubScript require | i answer | i answer]; simpl.
    + unfold init_call.
      destruct (init_owner_deferred driverClass owner st Howner) as [d ->].
      exists owner, (followers ++ [ReturnedDeferred]). simpl.
      split; [by rewrite Hcalls|].
      split; [apply Forall_app; split; [done|by repeat constructor]|].
      by destruct owner.
    + unfold init_request_settles. rewrite Hcalls.
      destruct i as [|j]; simpl.
      * destruct owner as [| | | |e0]; [|keep_owner..].
        destruct Howner as [Hshared Hlog].
        destruct answer as [response|e]; simpl.
        -- exists AwaitsInstantiate, followers; simpl.
           repeat (split; [done|]). rewrite Hlog. by exists response.
        -- exists (InitRejected e), followers; simpl.
           repeat (split; [done|]). rewrite Hlog.
           exists JUndefined. by eexists [_].
      * destruct (followers !! j) as [c|] eqn:Hj; [|keep_owner].
        rewrite (init_followers_lookup followers j c Hfollowers Hj).
        keep_owner.
    + unfold init_instantiate_settles. rewrite Hcalls.
      destruct i as [|j]; simpl.
      * destruct owner as [| | | |e0]; [keep_owner| |keep_owner..].
        destruct Howner as [Hshared [response Hlog]].
        rewrite Hshared; simpl.
        destruct answer as [v|e]; simpl.
        -- exists InitFulfilled, followers; simpl.
           repeat (split; [done|]). by exists response.
        -- exists (InitRejected e), followers; simpl.
           repeat (split; [done|]). rewrite Hlog.
           exists response. by eexists [].
      * destruct (followers !! j) as [c|] eqn:Hj; [|keep_owner].
        rewrite (init_followers_lookup followers j c Hfollowers Hj).
        keep_owner.
Qed.

Lemma init_run_invariant (driverClass : JsVal) (steps : list InitStep) :
  ∀ st, init_invariant driverClass st →
        init_invariant driverClass (init_run driverClass st steps).
Proof.
  unfold init_run.
  induction steps as [|step steps IH]; intros st Hst; simpl; [done|].
  apply IH. by apply init_step_invariant.
Qed.

(** However many calls of [init] are made and however they overlap, the
    subscript is loaded, the module required, the wasm binary requested and
    instantiated at most once, in this order, on behalf of the first call;
    every other call returns the deferred promise.  [Driver] is set exactly
    when that promise is resolved, which is exactly when the first call
    completed. *)
Theorem init_loads_once (driverClass : JsVal) (steps : list InitStep) :
  let st := init_run driverClass init_fresh steps in
  (∃ response,
     init_log st `prefix_of`
       [EvLoadSubScript; EvRequire; EvHttpRequest; EvInstantiate response])
  ∧ (∀ i c, init_calls st !! S i = Some c → c = ReturnedDeferred)
  ∧ (Driver (Zotero_CiteprocRs st) = Some driverClass
     ↔ deferred (Zotero_CiteprocRs st) = Some DeferredResolved)
  ∧ (deferred (Zotero_CiteprocRs st) = Some DeferredResolved
     ↔ init_calls st !! 0%nat = Some InitFulfilled).
Proof.
  intros st.
  assert (init_invariant driverClass st) as Hinv
    by (apply init_run_invariant; by left).
  destruct Hinv as [-> | (owner & followers & Hcalls & Hfollowers & Howner)].
  - simpl. split; [exists JUndefined; by eexists|].
    split; [done|]. by split.
  - rewrite Hcalls. simpl.
    split; [|split; [intros i c; by apply init_followers_lookup|]].
    + destruct owner as [| | | |e]; simpl in Howner; [| |done| |].
      * destruct Howner as [_ ->]. exists JUndefined. by eexists [_].
      * destruct Howner as [_ [response ->]]. by exists response.
      * destruct Howner as [_ [response ->]]. by exists response.
      * destruct Howner as [_ Hlog]. done.
    + destruct owner as [| | | |e]; simpl in Howner; [| |done| |];
        destruct Howner as [-> _]; simpl; by split.
Qed.

Lemma init_rejected_step (driverClass : JsVal) (e : JsVal) (st : InitState)
    (followers : list InitCall) (step : InitStep) :
  init_calls st = InitRejected e :: followers →
  Forall (λ c, c = ReturnedDeferred) followers →
  Zotero_CiteprocRs st = {| deferred := Some DeferredPending; Driver := None |} →
  let st' := init_step driverClass st step in
  Zotero_CiteprocRs st' = Zotero_CiteprocRs st
  ∧ init_log st' = init_log st
  ∧ (init_calls st' = init_calls st
     ∨ init_calls st' = init_calls st ++ [ReturnedDeferred]).
Proof.
  intros Hcalls Hfollowers Hshared.
  destruct step as [loadSubScript require | i answer | i answer]; simpl.
  - unfold init_call. rewrite Hshared; simpl. eauto.
  - unfold init_request_settles. rewrite Hcalls.
    destruct i as [|j]; simpl; [by auto|].
    destruct (followers !! j) as [c|] eqn:Hj; [|by auto].
    rewrite (init_followers_lookup followers j c Hfollowers Hj). by auto.
  - unfold init_instantiate_settles. rewrite Hcalls.
    destruct i as [|j]; simpl; [by auto|].
    destruct (followers !! j) as [c|] eqn:Hj; [|by auto].
    rewrite (init_followers_lookup followers j c Hfollowers Hj). by auto.
Qed.

Lemma init_rejected_run (driverClass : JsVal) (e : JsVal)
    (steps : list InitStep) :
  ∀ (st : InitState) (followers : list InitCall),
    init_calls st = InitRejected e :: followers →
    Forall (λ c, c = ReturnedDeferred) followers →
    Zotero_CiteprocRs st = {| deferred := Some DeferredPending; Driver := None |} →
    let st' := init_run driverClass st steps in
    Zotero_CiteprocRs st' = Zotero_CiteprocRs st
    ∧ init_log st' = init_log st
    ∧ ∃ later, init_calls st' = init_calls st ++ later
               ∧ Forall (λ c, c = ReturnedDeferred) later.
Proof.
  unfold init_run.
  induction steps as [|step steps IH]; intros st followers Hcalls Hfollowers
    Hshared; simpl.
  - split; [done|]. split; [done|]. exists []. by rewrite app_nil_r.
  - destruct (init_rejected_step driverClass e st followers step Hcalls
                Hfollowers Hshared) as (Hshared' & Hlog' & Hcalls').
    destruct Hcalls' as [Hsame | Hmore].
    + destruct (IH (init_step driverClass st step) followers)
        as (-> & -> & later & -> & Hlater); [congruence|done|congruence|].
      split; [done|]. split; [done|]. exists later. by rewrite Hsame.
    + destruct (IH (init_step driverClass st step)
                  (followers ++ [ReturnedDeferred]))
        as (-> & -> & later & -> & Hlater).
      * by rewrite Hmore, Hcalls.
      * apply Forall_app. split; [done|by repeat constructor].
      * congruence.
      * split; [done|]. split; [done|].
        exists (ReturnedDeferred :: later). rewrite Hmore, <- app_assoc.
        split; [done|]. by constructor.
Qed.

(** Once a call of [init] was rejected (the subscript, the module, the
    request or the instantiation failed), the initialization never recovers:
    whatever happens afterwards, the deferred promise stays pending, [Driver]
    stays unset, nothing is loaded again, and every later call of [init] only
    returns the deferred promise, which never settles. *)
Theorem init_failure_is_permanent (driverClass : JsVal)
    (before after : list InitStep) (i : nat) (e : JsVal) :
  let st := init_run driverClass init_fresh before in
  let st' := init_run driverClass st after in
  init_calls st !! i = Some (InitRejected e) →
  Zotero_CiteprocRs st'
  = {| deferred := Some DeferredPending; Driver := None |}
  ∧ init_log st' = init_log st
  ∧ ∃ later, init_calls st' = init_calls st ++ later
             ∧ Forall (λ c, c = ReturnedDeferred) later.
Proof.
  intros st st' Hi.
  assert (init_invariant driverClass st) as Hinv
    by (apply init_run_invariant; by left).
  destruct Hinv as [Hfresh | (owner & followers & Hcalls & Hfollowers & Howner)].
  - by rewrite Hfresh in Hi.
  - rewrite Hcalls in Hi. destruct i as [|j]; simpl in Hi.
    + injection Hi as ->. destruct Howner as [Hshared _].
      destruct (init_rejected_run driverClass e after st followers Hcalls
                  Hfollowers Hshared) as (Hshared' & Hlog' & Hlater).
      split; [subst st'; by rewrite Hshared'|]. done.
    + by apply (init_followers_lookup _ _ _ Hfollowers) in Hi.
Qed.

Lemma init_failure_is_permanent_witness :
  let before :=
    [StepCall None None; StepCall None None;
     StepRequestSettles 0 (Throw (JStr "NS_ERROR_FILE_NOT_FOUND"))] in
  let after := [StepCall None None; StepInstantiateSettles 0 (Normal JUndefined)] in
  let st := init_run (JStr "Driver") init_fresh before in
  let st' := init_run (JStr "Driver") st after in
  Zotero_CiteprocRs st'
  = {| deferred := Some DeferredPending; Driver := None |}
  ∧ init_log st' = init_log st
  ∧ ∃ later, init_calls st' = init_calls st ++ later
             ∧ Forall (λ c, c = ReturnedDeferred) later.
Proof.
  apply (init_failure_is_permanent (JStr "Driver")
           [StepCall None None; StepCall None None;
            StepRequestSettles 0 (Throw (JStr "NS_ERROR_FILE_NOT_FOUND"))]
           [StepCall None None; StepInstantiateSettles 0 (Normal JUndefined)]
           0 (JStr "NS_ERROR_FILE_NOT_FOUND")).
  reflexivity.
Defined.

Example init_success_demo :
  init_run (JStr "Driver") init_fresh
    [StepCall None None; StepCall None None;
     StepRequestSettles 0 (Normal (JStr "wasm")); StepCall None None;
     StepInstantiateSettles 0 (Normal JUndefined)]
  = {| Zotero_CiteprocRs :=
         {| deferred := Some DeferredResolved; Driver := Some (JStr "Driver") |};
       init_calls :=
         [InitFulfilled; ReturnedDeferred; ReturnedDeferred];
       init_log :=
         [EvLoadSubScript; EvRequire; EvHttpRequest; EvInstantiate (JStr "wasm")] |}.
Proof. reflexivity. Qed.

Lemma init_loads_once_witness :
  let st :=
    init_run (JStr "Driver") init_fresh
      [StepCall None None; StepCall None None;
       StepRequestSettles 0 (Normal (JStr "wasm"));
       StepInstantiateSettles 0 (Normal JUndefined)] in
  ReturnedDeferred = ReturnedDeferred
  ∧ Driver (Zotero_CiteprocRs st) = Some (JStr "Driver").
Proof.
  pose proof (init_loads_once (JStr "Driver")
                [StepCall None None; StepCall None None;
                 StepRequestSettles 0 (Normal (JStr "wasm"));
                 StepInstantiateSettles 0 (Normal JUndefined)])
    as (_ & Hfollowers & Hdriver & _).
  split.
  - exact (Hfollowers 0%nat ReturnedDeferred eq_refl).
  - apply Hdriver. reflexivity.
Defined.
